(** * CRM RealmKit: deal pipeline, forecasting and contact lifecycle

    A shallow embedding of the service layer documented in
    [ai-context/02-DEALS.md] ([DealService], [ForecastingService],
    [ContactLifecycleService]) together with [BaseService] and the error
    classes of the core module.

    Modelling conventions.
    - Prisma tables are finite maps from the primary key to the row
      ([gmap string _]); the rows of [deal_products], whose keys are
      generated, form a list.
    - A [Date] is its [getTime()] value, an integer number of milliseconds.
      One service call reads the clock as a single instant [now].
    - A JavaScript [number] that carries money, a probability product or a
      rate is an exact rational ([Q]); integer columns ([Int]) are [Z].
      Equalities between rationals are stated with [==].  The rounding of
      IEEE doubles is outside this model; [Binary64] repeats the two
      arithmetic kernels on doubles for the concrete scenarios.
    - [async] functions run to completion; a thrown [CRMError] is the [Err]
      branch of [result].
    - A JavaScript object used as a dictionary is a [gmap string _] of its own
      properties. *)

From Stdlib Require Import ZArith QArith Qround Qminmax Lqa.
From Stdlib Require Floats.PrimFloat.
From stdpp Require Import gmap strings list fin_maps sorting.

Local Open Scope string_scope.
Local Open Scope list_scope.
Local Open Scope Z_scope.

(** ** Errors *)

(** The [code] field of [CRMError]; [NotFoundError] fixes it to [NOT_FOUND]
    and records the resource in its message. *)
Inductive CRMError :=
| NOT_FOUND (resource : string)
| INVALID_PROGRESSION (current next : string).

Inductive result (A : Type) :=
| Ok (a : A)
| Err (e : CRMError).
Arguments Ok {A} a.
Arguments Err {A} e.

Definition bind {A B} (r : result A) (k : A → result B) : result B :=
  match r with
  | Ok a => k a
  | Err e => Err e
  end.

(** [orThrow o e] is [const x = o; if (!x) throw e]. *)
Definition orThrow {A} (o : option A) (e : CRMError) : result A :=
  match o with
  | Some a => Ok a
  | None => Err e
  end.

Declare Scope crm_scope.
Delimit Scope crm_scope with crm.
Notation "'let!' x ':=' c 'in' k" := (bind c (λ x, k))
  (at level 10, x binder, c at level 100, k at level 200) : crm_scope.
Local Open Scope crm_scope.

(** ** Data model *)

Definition Timestamp := Z.

(** [1000 * 60 * 60 * 24] *)
Definition msPerDay : Z := 1000 * 60 * 60 * 24.

(** [Math.floor((now - t) / (1000 * 60 * 60 * 24))]; [Z.div] rounds towards
    minus infinity as [Math.floor] does. *)
Definition daysBetween (now t : Timestamp) : Z := (now - t) / msPerDay.

Inductive LifecycleStage :=
| SUBSCRIBER
| LEAD
| MARKETING_QUALIFIED
| SALES_QUALIFIED
| OPPORTUNITY
| CUSTOMER
| EVANGELIST.

#[global] Instance LifecycleStage_eq_dec : EqDecision LifecycleStage.
Proof. solve_decision. Defined.

Module ContactStatus.
Inductive t := LEAD | PROSPECT | QUALIFIED | CUSTOMER | INACTIVE | UNQUALIFIED.
End ContactStatus.

Definition LifecycleStage_toString (s : LifecycleStage) : string :=
  match s with
  | SUBSCRIBER => "SUBSCRIBER"
  | LEAD => "LEAD"
  | MARKETING_QUALIFIED => "MARKETING_QUALIFIED"
  | SALES_QUALIFIED => "SALES_QUALIFIED"
  | OPPORTUNITY => "OPPORTUNITY"
  | CUSTOMER => "CUSTOMER"
  | EVANGELIST => "EVANGELIST"
  end.

Module PipelineStage.
Record t := mk {
  id : string;
  pipelineId : string;
  name : string;
  probability : Z;
  sortOrder : Z;
  rottenDays : option Z
}.
End PipelineStage.

Module User.
Record t := mk {
  id : string;
  name : option string
}.
End User.

Module Deal.
Record t := mk {
  id : string;
  value : Q;
  probability : Z;
  pipelineId : string;
  stageId : string;
  expectedCloseDate : Timestamp;
  actualCloseDate : option Timestamp;
  contactId : string;
  ownerId : string;
  updatedAt : Timestamp;
  stageChangedAt : Timestamp
}.
End Deal.

(** A [DealProductInput]; [discount] is optional. *)
Module DealProductInput.
Record t := mk {
  productId : string;
  name : string;
  quantity : Z;
  unitPrice : Q;
  discount : option Q
}.
End DealProductInput.

(** A row of [deal_products]. *)
Module DealProduct.
Record t := mk {
  dealId : string;
  productId : string;
  name : string;
  quantity : Z;
  unitPrice : Q;
  totalPrice : Q;
  discount : Q
}.
End DealProduct.

Module Contact.
Record t := mk {
  id : string;
  status : ContactStatus.t;
  lifecycleStage : LifecycleStage;
  lastContactedAt : option Timestamp;
  (** the [deals] relation, present only when the query includes it *)
  deals : option (list string);
  updatedAt : Timestamp
}.
End Contact.

(** The [metadata] of the activities the services log. *)
Inductive Activity :=
| DEAL_STAGE_CHANGED (dealId contactId : string)
    (previousStage : option string) (newStage : string) (reason : option string)
| DEAL_VALUE_CHANGED (dealId contactId : string)
    (previousValue newValue : Q) (products : nat)
| LIFECYCLE_CHANGE (contactId : string)
    (previousStage newStage : LifecycleStage) (reason : option string).

Record Store := mkStore {
  deals : gmap string Deal.t;
  pipelineStages : gmap string PipelineStage.t;
  users : gmap string User.t;
  contacts : gmap string Contact.t;
  dealProducts : list DealProduct.t;
  activities : list Activity
}.

(** [activityService.create] appends to the log. *)
Definition logActivity (a : Activity) (s : Store) : Store :=
  mkStore (deals s) (pipelineStages s) (users s) (contacts s)
          (dealProducts s) (activities s ++ [a]).

(** ** ContactLifecycleService *)

Module ContactLifecycleService.

(** [progressionMap[current]] *)
Definition progressionMap (current : LifecycleStage) : list LifecycleStage :=
  match current with
  | SUBSCRIBER => [LEAD]
  | LEAD => [MARKETING_QUALIFIED; SALES_QUALIFIED]
  | MARKETING_QUALIFIED => [SALES_QUALIFIED; LEAD]
  | SALES_QUALIFIED => [OPPORTUNITY; MARKETING_QUALIFIED]
  | OPPORTUNITY => [CUSTOMER; SALES_QUALIFIED]
  | CUSTOMER => [EVANGELIST]
  | EVANGELIST => []
  end.

(** [Array.prototype.includes] *)
Definition includes (l : list LifecycleStage) (x : LifecycleStage) : bool :=
  existsb (λ y, bool_decide (y = x)) l.

Definition isValidProgression (current next : LifecycleStage) : bool :=
  includes (progressionMap current) next || false.

Definition mapLifecycleToStatus (stage : LifecycleStage) : ContactStatus.t :=
  match stage with
  | SUBSCRIBER => ContactStatus.LEAD
  | LEAD => ContactStatus.LEAD
  | MARKETING_QUALIFIED => ContactStatus.PROSPECT
  | SALES_QUALIFIED => ContactStatus.QUALIFIED
  | OPPORTUNITY => ContactStatus.QUALIFIED
  | CUSTOMER => ContactStatus.CUSTOMER
  | EVANGELIST => ContactStatus.CUSTOMER
  end.

(** [contactService.update(contactId, { lifecycleStage, status })];
    [BaseService.update] adds [updatedAt]. *)
Definition updateContact (now : Timestamp) (c : Contact.t)
    (stage : LifecycleStage) (status : ContactStatus.t) : Contact.t :=
  Contact.mk (Contact.id c) status stage (Contact.lastContactedAt c)
             (Contact.deals c) now.

Definition setContact (contactId : string) (c : Contact.t) (s : Store) : Store :=
  mkStore (deals s) (pipelineStages s) (users s)
          (<[contactId := c]> (contacts s))
          (dealProducts s) (activities s).

Definition progressLifecycleStage (now : Timestamp) (s : Store)
    (contactId : string) (newStage : LifecycleStage) (reason : option string)
    : result (Store * Contact.t) :=
  let! contact := orThrow (contacts s !! contactId) (NOT_FOUND "Contact") in
  let currentStage := Contact.lifecycleStage contact in
  if negb (isValidProgression currentStage newStage) then
    Err (INVALID_PROGRESSION (LifecycleStage_toString currentStage)
                             (LifecycleStage_toString newStage))
  else
    let updated :=
      updateContact now contact newStage (mapLifecycleToStatus newStage) in
    let s1 := setContact contactId updated s in
    let s2 := logActivity
                (LIFECYCLE_CHANGE contactId currentStage newStage reason) s1 in
    Ok (s2, updated).

Inductive NextAction :=
| FOLLOW_UP_CALL
| SALES_HANDOFF
| CREATE_OPPORTUNITY
| CHECK_IN.

Inductive Priority := LOW | MEDIUM | HIGH.

Definition priority (a : NextAction) : Priority :=
  match a with
  | FOLLOW_UP_CALL => HIGH
  | SALES_HANDOFF => HIGH
  | CREATE_OPPORTUNITY => MEDIUM
  | CHECK_IN => LOW
  end.

Section NextActions.
(** [this.daysSince] is not part of the documented class; it is taken as
    given, for the current instant. *)
Variable daysSince : option Timestamp → Z.

(** [!contact.deals?.length] *)
Definition noDeals (c : Contact.t) : bool :=
  match Contact.deals c with
  | None => true
  | Some ds => bool_decide (length ds = 0%nat)
  end.

Definition calculateNextActions (s : Store) (contactId : string)
    : result (list NextAction) :=
  match contacts s !! contactId with
  | None => Ok []
  | Some contact =>
      let actions : list NextAction := [] in
      let daysSinceLastContact := daysSince (Contact.lastContactedAt contact) in
      let actions :=
        match Contact.lifecycleStage contact with
        | LEAD =>
            if (3 <? daysSinceLastContact)%Z
            then actions ++ [FOLLOW_UP_CALL] else actions
        | MARKETING_QUALIFIED => actions ++ [SALES_HANDOFF]
        | SALES_QUALIFIED =>
            if noDeals contact
            then actions ++ [CREATE_OPPORTUNITY] else actions
        | CUSTOMER =>
            if (30 <? daysSinceLastContact)%Z
            then actions ++ [CHECK_IN] else actions
        | _ => actions
        end in
      Ok actions
  end.
End NextActions.

End ContactLifecycleService.

(** ** BaseService and query helpers *)

(** [findMany] without a [where] clause: all rows of a table. *)
Definition findMany {A} (table : gmap string A) : list A :=
  (map_to_list table).*2.

(** JavaScript truthiness of an optional string argument, as in
    [if (ownerId)] and [options.ownerId && {...}]: [undefined] and the empty
    string are falsy. *)
Definition truthy (o : option string) : bool :=
  match o with
  | None => false
  | Some x => negb (String.eqb x "")
  end.

(** A [where] condition that is only present when the argument is truthy. *)
Definition optionalFilter (o : option string) (actual : string) : bool :=
  if truthy o then bool_decide (Some actual = o) else true.

(** JavaScript truthiness of a nullable integer: [null] and [0] are falsy. *)
Definition truthyInt (o : option Z) : bool :=
  match o with
  | None => false
  | Some n => negb (n =? 0)
  end.

(** [x || 0] on an optional number. *)
Definition orZero (o : option Q) : Q :=
  match o with
  | Some x => x
  | None => 0%Q
  end.

(** [Math.round]: the nearest integer, halves rounded up. *)
Definition Math_round (x : Q) : Z := Qfloor (x + (1 # 2)).

(** The [data] argument of a Prisma [update] on [deal]: a column is written
    only when it is present. *)
Module DealUpdate.
Record t := mk {
  stageId : option string;
  probability : option Z;
  stageChangedAt : option Timestamp;
  actualCloseDate : option Timestamp;
  value : option Q
}.

Definition empty : t := mk None None None None None.

(** [cond && { actualCloseDate: at }] *)
Definition closeIf (cond : bool) (at_ : Timestamp) : t :=
  if cond then mk None None None (Some at_) None else empty.

Definition later {A} (a b : option A) : option A :=
  match b with
  | Some _ => b
  | None => a
  end.

(** Object spread [{ ...a, ...b }]: the properties of [b] win. *)
Definition spread (a b : t) : t :=
  mk (later (stageId a) (stageId b))
     (later (probability a) (probability b))
     (later (stageChangedAt a) (stageChangedAt b))
     (later (actualCloseDate a) (actualCloseDate b))
     (later (value a) (value b)).

(** The row after the update; [updatedAt] is refreshed on every update
    ([BaseService.update] writes it, and the column is [@updatedAt]). *)
Definition apply (now : Timestamp) (d : Deal.t) (u : t) : Deal.t :=
  Deal.mk (Deal.id d)
          (default (Deal.value d) (value u))
          (default (Deal.probability d) (probability u))
          (Deal.pipelineId d)
          (default (Deal.stageId d) (stageId u))
          (Deal.expectedCloseDate d)
          (later (Deal.actualCloseDate d) (actualCloseDate u))
          (Deal.contactId d)
          (Deal.ownerId d)
          now
          (default (Deal.stageChangedAt d) (stageChangedAt u)).
End DealUpdate.

Definition setDeal (dealId : string) (d : Deal.t) (s : Store) : Store :=
  mkStore (<[dealId := d]> (deals s)) (pipelineStages s) (users s) (contacts s)
          (dealProducts s) (activities s).

Definition setDealProducts (rows : list DealProduct.t) (s : Store) : Store :=
  mkStore (deals s) (pipelineStages s) (users s) (contacts s)
          rows (activities s).

(** A deal row with [include: { stage: true }]. *)
Definition DealWithStage : Type := Deal.t * PipelineStage.t.

Definition includeStage (s : Store) (d : Deal.t) : option DealWithStage :=
  st ← pipelineStages s !! Deal.stageId d; Some (d, st).

(** ** DealService *)

Module DealService.

Definition calculateDealValue (products : list DealProductInput.t) : Q :=
  fold_left
    (λ total product,
       let subtotal :=
         inject_Z (DealProductInput.quantity product)
         * DealProductInput.unitPrice product in
       let discount :=
         subtotal * orZero (DealProductInput.discount product) / 100 in
       total + (subtotal - discount))%Q
    products 0%Q.

Definition moveDealToStage (now : Timestamp) (s : Store)
    (dealId stageId : string) (reason : option string)
    : result (Store * Deal.t) :=
  let! deal := orThrow (deals s !! dealId) (NOT_FOUND "Deal") in
  let! newStage :=
    orThrow (pipelineStages s !! stageId) (NOT_FOUND "Pipeline stage") in
  let oldStage := pipelineStages s !! Deal.stageId deal in
  let data :=
    DealUpdate.spread
      (DealUpdate.spread
         (DealUpdate.mk (Some stageId)
                        (Some (PipelineStage.probability newStage))
                        (Some now) None None)
         (DealUpdate.closeIf
            (String.eqb (PipelineStage.name newStage) "Closed Won") now))
      (DealUpdate.closeIf
         (String.eqb (PipelineStage.name newStage) "Closed Lost") now) in
  let updated := DealUpdate.apply now deal data in
  let s1 := setDeal dealId updated s in
  let s2 :=
    logActivity
      (DEAL_STAGE_CHANGED dealId (Deal.contactId deal)
         (PipelineStage.name <$> oldStage) (PipelineStage.name newStage)
         reason) s1 in
  Ok (s2, updated).

(** One row of [createMany] in [updateDealValue]. *)
Definition productRow (dealId : string) (p : DealProductInput.t)
    : DealProduct.t :=
  DealProduct.mk dealId
    (DealProductInput.productId p)
    (DealProductInput.name p)
    (DealProductInput.quantity p)
    (DealProductInput.unitPrice p)
    (inject_Z (DealProductInput.quantity p)
     * DealProductInput.unitPrice p
     * ((100 - orZero (DealProductInput.discount p)) / 100))%Q
    (orZero (DealProductInput.discount p)).

(** [deleteMany({ where: { dealId } })] *)
Definition deleteProductsOf (dealId : string) (rows : list DealProduct.t)
    : list DealProduct.t :=
  List.filter (λ r, negb (String.eqb (DealProduct.dealId r) dealId)) rows.

(** The line items stored for a deal. *)
Definition productsOf (dealId : string) (s : Store) : list DealProduct.t :=
  List.filter (λ r, String.eqb (DealProduct.dealId r) dealId) (dealProducts s).

Definition updateDealValue (now : Timestamp) (s : Store)
    (dealId : string) (products : list DealProductInput.t)
    : result (Store * Deal.t) :=
  let! deal := orThrow (deals s !! dealId) (NOT_FOUND "Deal") in
  let newValue := calculateDealValue products in
  (* $transaction *)
  let s1 := setDealProducts (deleteProductsOf dealId (dealProducts s)) s in
  let s2 :=
    setDealProducts (dealProducts s1 ++ map (productRow dealId) products) s1 in
  let updated :=
    DealUpdate.apply now deal
      (DealUpdate.mk None None None None (Some newValue)) in
  let s3 := setDeal dealId updated s2 in
  let s4 :=
    logActivity
      (DEAL_VALUE_CHANGED dealId (Deal.contactId deal)
         (Deal.value deal) newValue (length products)) s3 in
  Ok (s4, updated).

(** The [where] clause of [getRottenDeals]. *)
Definition rottenWhere (ownerId : option string) (d : DealWithStage) : bool :=
  bool_decide (Deal.actualCloseDate d.1 = None)
  && bool_decide (PipelineStage.rottenDays d.2 ≠ None)
  && optionalFilter ownerId (Deal.ownerId d.1).

(** The callback of [deals.filter]:
    [deal.stage.rottenDays && daysSinceStageChange > deal.stage.rottenDays],
    read as a boolean. *)
Definition actuallyRotten (now : Timestamp) (d : DealWithStage) : bool :=
  let daysSinceStageChange := daysBetween now (Deal.stageChangedAt d.1) in
  match PipelineStage.rottenDays d.2 with
  | None => false
  | Some r => truthyInt (Some r) && (r <? daysSinceStageChange)
  end.

Definition getRottenDeals (now : Timestamp) (s : Store)
    (ownerId : option string) : list DealWithStage :=
  let deals :=
    List.filter (rottenWhere ownerId)
                (omap (includeStage s) (findMany (deals s))) in
  List.filter (actuallyRotten now) deals.

End DealService.

(** ** ForecastingService *)

Inductive ForecastPeriod := THIS_MONTH | NEXT_MONTH | THIS_QUARTER | NEXT_QUARTER.

Module StageMetrics.
Record t := mk {
  count : Z;
  totalValue : Q;
  weightedValue : Q;
  averageProbability : Q
}.
End StageMetrics.

Module OwnerMetrics.
Record t := mk {
  count : Z;
  totalValue : Q;
  weightedValue : Q
}.
End OwnerMetrics.

Module Forecast.
Record t := mk {
  period : ForecastPeriod;
  totalValue : Q;
  weightedValue : Q;
  dealCount : nat;
  byStage : gmap string StageMetrics.t;
  byOwner : gmap string OwnerMetrics.t;
  confidence : Z
}.
End Forecast.

Module ConversionRate.
Record t := mk {
  from : string;
  to : string;
  rate : Q;
  deals : nat
}.
End ConversionRate.

(** A deal row with [include: { stage: true, owner: { select: ... } }]. *)
Module ForecastDeal.
Record t := mk {
  deal : Deal.t;
  stage : PipelineStage.t;
  owner : User.t
}.
End ForecastDeal.

Definition includeStageOwner (s : Store) (d : Deal.t) : option ForecastDeal.t :=
  st ← pipelineStages s !! Deal.stageId d;
  u ← users s !! Deal.ownerId d;
  Some (ForecastDeal.mk d st u).

(** [name || 'Unassigned'] *)
Definition orUnassigned (name : option string) : string :=
  match name with
  | Some n => if String.eqb n "" then "Unassigned" else n
  | None => "Unassigned"
  end.

Module ForecastingService.

(** The adjusted confidence of one deal, before the clamp: the body of the
    [forEach] callback of [calculateConfidence] up to [Math.min]. *)
Definition dealConfidence (probability daysSinceUpdate : Z) : Q :=
  let dealConfidence := inject_Z probability in
  let dealConfidence :=
    if 7 <? daysSinceUpdate
    then (dealConfidence * (8 # 10))%Q else dealConfidence in
  let dealConfidence :=
    if 14 <? daysSinceUpdate
    then (dealConfidence * (7 # 10))%Q else dealConfidence in
  let dealConfidence :=
    if 30 <? daysSinceUpdate
    then (dealConfidence * (5 # 10))%Q else dealConfidence in
  let dealConfidence :=
    if daysSinceUpdate <=? 2
    then (dealConfidence * (11 # 10))%Q else dealConfidence in
  dealConfidence.

(** What one deal adds to [confidenceScore]. *)
Definition confidenceContribution (now : Timestamp) (d : Deal.t) : Q :=
  let daysSinceUpdate := daysBetween now (Deal.updatedAt d) in
  Qmin (dealConfidence (Deal.probability d) daysSinceUpdate) 100.

Definition calculateConfidence (now : Timestamp) (deals : list Deal.t) : Z :=
  if bool_decide (length deals = 0%nat) then 0
  else
    let confidenceScore :=
      fold_left (λ score d, score + confidenceContribution now d)%Q
                deals 0%Q in
    Math_round (confidenceScore / inject_Z (Z.of_nat (length deals))).

(** The [where] clause of [generateForecast]. *)
Definition forecastWhere (startDate endDate : Timestamp)
    (ownerId pipelineId : option string) (d : Deal.t) : bool :=
  (startDate <=? Deal.expectedCloseDate d)
  && (Deal.expectedCloseDate d <=? endDate)
  && bool_decide (Deal.actualCloseDate d = None)
  && optionalFilter ownerId (Deal.ownerId d)
  && optionalFilter pipelineId (Deal.pipelineId d).

(** [forecast.byStage[stageName]] after the bucket has been created when
    missing. *)
Definition stageBucket (m : gmap string StageMetrics.t) (stageName : string)
    : StageMetrics.t :=
  default (StageMetrics.mk 0 0 0 0) (m !! stageName).

Definition ownerBucket (m : gmap string OwnerMetrics.t) (ownerName : string)
    : OwnerMetrics.t :=
  default (OwnerMetrics.mk 0 0 0) (m !! ownerName).

(** One round of [deals.forEach] in [generateForecast]. *)
Definition addDeal (forecast : Forecast.t) (d : ForecastDeal.t) : Forecast.t :=
  let value := Deal.value (ForecastDeal.deal d) in
  let weightedValue :=
    (value * (inject_Z (Deal.probability (ForecastDeal.deal d)) / 100))%Q in
  let stageName := PipelineStage.name (ForecastDeal.stage d) in
  let sb := stageBucket (Forecast.byStage forecast) stageName in
  let sb :=
    StageMetrics.mk (StageMetrics.count sb + 1)
                    (StageMetrics.totalValue sb + value)
                    (StageMetrics.weightedValue sb + weightedValue)
                    (StageMetrics.averageProbability sb) in
  let ownerName := orUnassigned (User.name (ForecastDeal.owner d)) in
  let ob := ownerBucket (Forecast.byOwner forecast) ownerName in
  let ob :=
    OwnerMetrics.mk (OwnerMetrics.count ob + 1)
                    (OwnerMetrics.totalValue ob + value)
                    (OwnerMetrics.weightedValue ob + weightedValue) in
  Forecast.mk (Forecast.period forecast)
              (Forecast.totalValue forecast + value)
              (Forecast.weightedValue forecast + weightedValue)
              (Forecast.dealCount forecast)
              (<[stageName := sb]> (Forecast.byStage forecast))
              (<[ownerName := ob]> (Forecast.byOwner forecast))
              (Forecast.confidence forecast).

(** The second pass: [averageProbability] of the bucket [stageName]. *)
Definition averageProbability (deals : list ForecastDeal.t)
    (stageName : string) : Q :=
  let stageDeals :=
    List.filter
      (λ d, String.eqb (PipelineStage.name (ForecastDeal.stage d)) stageName)
      deals in
  (fold_left (λ sum d, sum + inject_Z (Deal.probability (ForecastDeal.deal d)))
             stageDeals 0
   / inject_Z (Z.of_nat (length stageDeals)))%Q.

Definition setAverages (deals : list ForecastDeal.t) (forecast : Forecast.t)
    : Forecast.t :=
  Forecast.mk (Forecast.period forecast)
              (Forecast.totalValue forecast)
              (Forecast.weightedValue forecast)
              (Forecast.dealCount forecast)
              (map_imap
                 (λ stageName m,
                    Some (StageMetrics.mk
                            (StageMetrics.count m)
                            (StageMetrics.totalValue m)
                            (StageMetrics.weightedValue m)
                            (averageProbability deals stageName)))
                 (Forecast.byStage forecast))
              (Forecast.byOwner forecast)
              (Forecast.confidence forecast).

(** [options] of [generateForecast] *)
Record ForecastOptions := mkOptions {
  ownerId : option string;
  pipelineId : option string
}.

Section Forecast.
(** [getPeriodDates] is not part of the documented class: the window of
    a period is taken as given, for the current instant. *)
Variable getPeriodDates : ForecastPeriod → Timestamp * Timestamp.

(** The deals [generateForecast] selects. *)
Definition selectDeals (s : Store) (period : ForecastPeriod)
    (options : ForecastOptions) : list ForecastDeal.t :=
  let '(startDate, endDate) := getPeriodDates period in
  omap (includeStageOwner s)
       (List.filter
          (forecastWhere startDate endDate
                         (ownerId options) (pipelineId options))
          (findMany (deals s))).

Definition generateForecast (now : Timestamp) (s : Store)
    (period : ForecastPeriod) (options : ForecastOptions) : Forecast.t :=
  let deals := selectDeals s period options in
  let forecast :=
    Forecast.mk period 0 0 (length deals) ∅ ∅
                (calculateConfidence now (ForecastDeal.deal <$> deals)) in
  let forecast := fold_left addDeal deals forecast in
  setAverages deals forecast.
End Forecast.

Section Conversion.
(** [dealPassedThroughStage] is not part of the documented class; it is
    taken as given. *)
Variable dealPassedThroughStage : DealWithStage → string → bool.
(** [startDate.setFullYear(endDate.getFullYear() - 1)] *)
Variable oneYearBefore : Timestamp → Timestamp.

Definition closedWithin (startDate endDate : Timestamp) (pipelineId : string)
    (d : DealWithStage) : bool :=
  String.eqb (Deal.pipelineId d.1) pipelineId
  && match Deal.actualCloseDate d.1 with
     | Some t => (startDate <=? t) && (t <=? endDate)
     | None => false
     end.

Definition bySortOrder (a b : PipelineStage.t) : Prop :=
  PipelineStage.sortOrder a ≤ PipelineStage.sortOrder b.

#[local] Instance bySortOrder_dec a b : Decision (bySortOrder a b).
Proof. unfold bySortOrder. apply _. Defined.

(** [pipelineStage.findMany({ where: { pipelineId },
    orderBy: { sortOrder: 'asc' } })] *)
Definition stagesOf (s : Store) (pipelineId : string)
    : list PipelineStage.t :=
  merge_sort bySortOrder
    (List.filter (λ st, String.eqb (PipelineStage.pipelineId st) pipelineId)
                 (findMany (pipelineStages s))).

Definition conversionKey (currentStage nextStage : PipelineStage.t) : string :=
  (PipelineStage.name currentStage ++ "_to_" ++ PipelineStage.name nextStage)%string.

(** The entry one iteration of the loop writes. *)
Definition conversionEntry (deals : list DealWithStage)
    (currentStage nextStage : PipelineStage.t) : ConversionRate.t :=
  let currentStageDeals :=
    List.filter (λ d, dealPassedThroughStage d (PipelineStage.id currentStage))
                deals in
  let nextStageDeals :=
    List.filter (λ d, dealPassedThroughStage d (PipelineStage.id nextStage))
                deals in
  let rate :=
    if bool_decide (0 < length currentStageDeals)%nat
    then (inject_Z (Z.of_nat (length nextStageDeals))
          / inject_Z (Z.of_nat (length currentStageDeals)) * 100)%Q
    else 0%Q in
  ConversionRate.mk (PipelineStage.name currentStage)
                    (PipelineStage.name nextStage)
                    rate (length currentStageDeals).

(** [for (let i = 0; i < stages.length - 1; i++)], on the remaining
    stages [stages[i..]]. *)
Fixpoint conversionLoop (deals : list DealWithStage)
    (stages : list PipelineStage.t)
    (conversionRates : gmap string ConversionRate.t)
    : gmap string ConversionRate.t :=
  match stages with
  | currentStage :: rest =>
      match rest with
      | nextStage :: _ =>
          conversionLoop deals rest
            (<[conversionKey currentStage nextStage :=
                 conversionEntry deals currentStage nextStage]>
               conversionRates)
      | [] => conversionRates
      end
  | [] => conversionRates
  end.

(** The [deal.findMany] of [getConversionRates]: the deals of the pipeline
    closed in the last twelve months. *)
Definition closedDeals (now : Timestamp) (s : Store) (pipelineId : string)
    : list DealWithStage :=
  let endDate := now in
  let startDate := oneYearBefore endDate in
  List.filter (closedWithin startDate endDate pipelineId)
              (omap (includeStage s) (findMany (deals s))).

Definition getConversionRates (now : Timestamp) (s : Store)
    (pipelineId : string) : gmap string ConversionRate.t :=
  let deals := closedDeals now s pipelineId in
  let stages := stagesOf s pipelineId in
  conversionLoop deals stages ∅.
End Conversion.

End ForecastingService.

(** ** The numeric kernels on binary64

    The same two computations on IEEE 754 doubles, the values a JavaScript
    [number] takes, to evaluate the concrete scenarios without the
    idealisation to rationals. *)

Module Binary64.
Import PrimFloat.
Local Open Scope float_scope.

(** [quantity], [unitPrice] and [discount || 0] of a line item. *)
Definition LineItem : Type := float * float * float.

Definition calculateDealValue (products : list LineItem) : float :=
  fold_left
    (λ total product,
       let '(quantity, unitPrice, discount) := product in
       let subtotal := quantity * unitPrice in
       let discount := subtotal * discount / 100 in
       total + (subtotal - discount))
    products 0.

Definition dealConfidence (probability : float) (daysSinceUpdate : Z) : float :=
  let dealConfidence := probability in
  let dealConfidence :=
    if (7 <? daysSinceUpdate)%Z
    then dealConfidence * 0x1.999999999999ap-1 else dealConfidence in
  let dealConfidence :=
    if (14 <? daysSinceUpdate)%Z
    then dealConfidence * 0x1.6666666666666p-1 else dealConfidence in
  let dealConfidence :=
    if (30 <? daysSinceUpdate)%Z
    then dealConfidence * 0.5 else dealConfidence in
  let dealConfidence :=
    if (daysSinceUpdate <=? 2)%Z
    then dealConfidence * 0x1.199999999999ap+0 else dealConfidence in
  dealConfidence.

End Binary64.

(** ** The specification's vocabulary *)

(** The directed progression graph as the specification lists it, edge by
    edge. *)
Inductive progression_edge : LifecycleStage → LifecycleStage → Prop :=
| edge_SUBSCRIBER_LEAD : progression_edge SUBSCRIBER LEAD
| edge_LEAD_MQ : progression_edge LEAD MARKETING_QUALIFIED
| edge_LEAD_SQ : progression_edge LEAD SALES_QUALIFIED
| edge_MQ_SQ : progression_edge MARKETING_QUALIFIED SALES_QUALIFIED
| edge_MQ_LEAD : progression_edge MARKETING_QUALIFIED LEAD
| edge_SQ_OPPORTUNITY : progression_edge SALES_QUALIFIED OPPORTUNITY
| edge_SQ_MQ : progression_edge SALES_QUALIFIED MARKETING_QUALIFIED
| edge_OPPORTUNITY_CUSTOMER : progression_edge OPPORTUNITY CUSTOMER
| edge_OPPORTUNITY_SQ : progression_edge OPPORTUNITY SALES_QUALIFIED
| edge_CUSTOMER_EVANGELIST : progression_edge CUSTOMER EVANGELIST.

(** The status the specification derives from a lifecycle stage. *)
Inductive derived_status : LifecycleStage → ContactStatus.t → Prop :=
| status_SUBSCRIBER : derived_status SUBSCRIBER ContactStatus.LEAD
| status_LEAD : derived_status LEAD ContactStatus.LEAD
| status_MQ : derived_status MARKETING_QUALIFIED ContactStatus.PROSPECT
| status_SQ : derived_status SALES_QUALIFIED ContactStatus.QUALIFIED
| status_OPPORTUNITY : derived_status OPPORTUNITY ContactStatus.QUALIFIED
| status_CUSTOMER : derived_status CUSTOMER ContactStatus.CUSTOMER
| status_EVANGELIST : derived_status EVANGELIST ContactStatus.CUSTOMER.

(** The total of one line item: quantity × unitPrice × (1 − discount/100). *)
Definition lineTotal (p : DealProductInput.t) : Q :=
  (inject_Z (DealProductInput.quantity p) * DealProductInput.unitPrice p
   * (1 - orZero (DealProductInput.discount p) / 100))%Q.

(** Σ over a list of rationals. *)
Definition sumQ (l : list Q) : Q := fold_right Qplus 0%Q l.

(** A stage name that marks a deal as closed. *)
Definition terminalName (n : string) : Prop :=
  n = "Closed Won" ∨ n = "Closed Lost".

(** The three conditions under which the specification calls a deal rotten
    at the instant [now]. *)
Definition rotten (now : Timestamp) (d : DealWithStage) : Prop :=
  Deal.actualCloseDate d.1 = None
  ∧ ∃ r, PipelineStage.rottenDays d.2 = Some r
         ∧ r < daysBetween now (Deal.stageChangedAt d.1).

(** A forecast keeps its weighted value within its total value, overall and
    in every per-stage and per-owner bucket. *)
Definition weightedWithinTotal (f : Forecast.t) : Prop :=
  (Forecast.weightedValue f <= Forecast.totalValue f)%Q
  ∧ (∀ stageName m, Forecast.byStage f !! stageName = Some m →
       (StageMetrics.weightedValue m <= StageMetrics.totalValue m)%Q)
  ∧ (∀ ownerName m, Forecast.byOwner f !! ownerName = Some m →
       (OwnerMetrics.weightedValue m <= OwnerMetrics.totalValue m)%Q).

(** value × (probability/100) *)
Definition weighted (d : ForecastDeal.t) : Q :=
  (Deal.value (ForecastDeal.deal d)
   * (inject_Z (Deal.probability (ForecastDeal.deal d)) / 100))%Q.

(** The deals the forecast arithmetic is meant for. *)
Definition plausible (d : ForecastDeal.t) : Prop :=
  (0 <= Deal.value (ForecastDeal.deal d))%Q
  ∧ 0 ≤ Deal.probability (ForecastDeal.deal d) ≤ 100.

(** The adjacent pairs [(stages[i], stages[i+1])] of an ordered list of
    stages. *)
Definition adjacentPairs (stages : list PipelineStage.t)
    : list (PipelineStage.t * PipelineStage.t) :=
  zip stages (tail stages).

(** The key of an adjacent pair. *)
Definition pairKey (pair : PipelineStage.t * PipelineStage.t) : string :=
  (PipelineStage.name pair.1 ++ "_to_" ++ PipelineStage.name pair.2)%string.

Section ConversionVocabulary.
Variable passed : DealWithStage → string → bool.
Variable deals : list DealWithStage.

(** The number of deals that passed through a stage. *)
Definition passedThrough (st : PipelineStage.t) : nat :=
  length (List.filter (λ d, passed d (PipelineStage.id st)) deals).

(** The entry the specification describes for an adjacent pair: the two
    names, the count of the earlier stage, and as rate the later count over
    the earlier count times 100, or 0 when the earlier count is 0. *)
Definition entryFor (pair : PipelineStage.t * PipelineStage.t)
    (e : ConversionRate.t) : Prop :=
  ConversionRate.from e = PipelineStage.name pair.1
  ∧ ConversionRate.to e = PipelineStage.name pair.2
  ∧ ConversionRate.deals e = passedThrough pair.1
  ∧ (passedThrough pair.1 = 0%nat → ConversionRate.rate e == 0)
  ∧ (passedThrough pair.1 ≠ 0%nat →
     ConversionRate.rate e
     == inject_Z (Z.of_nat (passedThrough pair.2))
        / inject_Z (Z.of_nat (passedThrough pair.1)) * 100).

(** The writes of the loop of [getConversionRates] in order: for each
    adjacent pair its key and the entry stored under it. *)
Definition writes (stages : list PipelineStage.t)
    : list (string * ConversionRate.t) :=
  (λ pair,
     (pairKey pair,
      ForecastingService.conversionEntry passed deals pair.1 pair.2))
    <$> adjacentPairs stages.
End ConversionVocabulary.

(** ** Concrete scenarios *)

Module Scenario.

Definition lead : Contact.t :=
  Contact.mk "c1" ContactStatus.LEAD LEAD None None 0.

Definition customer : Contact.t :=
  Contact.mk "c2" ContactStatus.CUSTOMER CUSTOMER (Some 0) None 0.

Definition crm : Store :=
  mkStore ∅ ∅ ∅ (<["c2" := customer]> {["c1" := lead]}) [] [].

(** A pipeline with three stages; the first one has a threshold of zero
    days. *)
Definition qualified : PipelineStage.t :=
  PipelineStage.mk "s1" "p1" "Qualified" 25 0 (Some 0).
Definition proposal : PipelineStage.t :=
  PipelineStage.mk "s2" "p1" "Proposal" 50 1 (Some 14).
Definition closedWon : PipelineStage.t :=
  PipelineStage.mk "s3" "p1" "Closed Won" 100 2 None.

Definition alice : User.t := User.mk "u1" (Some "Alice").

(** An open deal that entered "Qualified" at the epoch and was last updated
    then. *)
Definition staleDeal : Deal.t :=
  Deal.mk "d1" 10000 50 "p1" "s1" (40 * msPerDay) None "c1" "u1" 0 0.

(** An open deal in "Proposal", updated at the epoch. *)
Definition openDeal : Deal.t :=
  Deal.mk "d2" 10000 50 "p1" "s2" (40 * msPerDay) None "c1" "u1" 0 0.

Definition pipeline : Store :=
  mkStore (<["d2" := openDeal]> {["d1" := staleDeal]})
          (<["s3" := closedWon]> (<["s2" := proposal]> {["s1" := qualified]}))
          {["u1" := alice]}
          {["c1" := lead]}
          [] [].

(** The three line items of the specification's end-to-end scenario. *)
Definition threeLineItems : list DealProductInput.t :=
  [ DealProductInput.mk "p1" "Seats" 2 100 (Some 10%Q);
    DealProductInput.mk "p2" "Setup" 1 50 (Some 0%Q);
    DealProductInput.mk "p3" "Support" 5 20 (Some 20%Q) ].

(** A pipeline whose three stages carry the same name, and one deal closed
    while in the second stage. *)
Definition a1 : PipelineStage.t := PipelineStage.mk "a1" "p9" "A" 10 0 None.
Definition a2 : PipelineStage.t := PipelineStage.mk "a2" "p9" "A" 50 1 None.
Definition a3 : PipelineStage.t := PipelineStage.mk "a3" "p9" "A" 90 2 None.

Definition closedDeal : Deal.t :=
  Deal.mk "d9" 500 50 "p9" "a2" (390 * msPerDay) (Some (390 * msPerDay))
          "c1" "u1" (390 * msPerDay) (380 * msPerDay).

Definition repeated : Store :=
  mkStore {["d9" := closedDeal]}
          (<["a3" := a3]> (<["a2" := a2]> {["a1" := a1]}))
          {["u1" := alice]}
          {["c1" := lead]}
          [] [].

(** A deal passed through a stage when its current stage is at or beyond
    that stage in sort order. *)
Definition reached (s : Store) (d : DealWithStage) (stageId : string) : bool :=
  match pipelineStages s !! stageId with
  | Some st => PipelineStage.sortOrder st <=? PipelineStage.sortOrder d.2
  | None => false
  end.

(** Twelve months as 365 days. *)
Definition yearBefore (t : Timestamp) : Timestamp := t - 365 * msPerDay.

(** A forecast window that holds the expected close dates above. *)
Definition window (period : ForecastPeriod) : Timestamp * Timestamp :=
  (30 * msPerDay, 60 * msPerDay).

(** A [daysSince] for the instant [now]; a contact never contacted counts as
    contacted at the epoch. *)
Definition daysSinceAt (now : Timestamp) (t : option Timestamp) : Z :=
  daysBetween now (default 0 t).

End Scenario.

(** ** ContactService: lead scoring *)

(** The properties of a [ContactCreateInput], and of a [Contact], that lead
    scoring reads; each is optional. *)
Module LeadFields.
Record t := mk {
  email : option string;
  phone : option string;
  companyName : option string;
  title : option string;
  companyId : option string;
  source : option string
}.
End LeadFields.

Module ContactService.




End ContactService.

(** ** PipelineService: metrics *)

(** A row of [pipelines]. The table is kept beside the store, which the
    deal, forecast and lifecycle services share. *)
Module Pipeline.
Record t := mk {
  id : string;
  name : string;
  isDefault : bool;
  isActive : bool
}.
End Pipeline.

Module StageAgeMetrics.
Record t := mk {
  name : string;
  dealCount : nat;
  totalValue : Q;
  averageAge : Z
}.
End StageAgeMetrics.

Module PipelineMetrics.
Record t := mk {
  totalDeals : nat;
  totalValue : Q;
  averageDealSize : Q;
  stageMetrics : gmap string StageAgeMetrics.t
}.
End PipelineMetrics.

Module PipelineService.

Definition calculateAverageStageAge (now : Timestamp)
    (deals : list DealWithStage) : Z :=
  if bool_decide (length deals = 0%nat) then 0
  else
    let totalDays :=
      fold_left (λ sum deal, sum + daysBetween now (Deal.stageChangedAt deal.1))
                deals 0 in
    Math_round (inject_Z totalDays / inject_Z (Z.of_nat (length deals))).

(** [deals.reduce((sum, deal) => sum + Number(deal.value), 0)] *)
Definition sumValues (deals : list DealWithStage) : Q :=
  fold_left (λ sum deal, sum + Deal.value deal.1)%Q deals 0%Q.

(** The [deals] relation of [getPipelineMetrics]: the open deals of the
    pipeline, each with its stage. *)
Definition openDealsOf (s : Store) (pipelineId : string)
    : list DealWithStage :=
  List.filter
    (λ d, String.eqb (Deal.pipelineId d.1) pipelineId
          && bool_decide (Deal.actualCloseDate d.1 = None))
    (omap (includeStage s) (findMany (deals s))).

(** The entry [metrics.stageMetrics[stage.id]]. *)
Definition stageEntry (now : Timestamp) (deals : list DealWithStage)
    (stage : PipelineStage.t) : StageAgeMetrics.t :=
  let stageDeals :=
    List.filter
      (λ deal, String.eqb (Deal.stageId deal.1) (PipelineStage.id stage))
      deals in
  StageAgeMetrics.mk (PipelineStage.name stage)
                     (length stageDeals)
                     (sumValues stageDeals)
                     (calculateAverageStageAge now stageDeals).

Definition getPipelineMetrics (now : Timestamp)
    (pipelines : gmap string Pipeline.t) (s : Store) (pipelineId : string)
    : result PipelineMetrics.t :=
  let! pipeline := orThrow (pipelines !! pipelineId) (NOT_FOUND "Pipeline") in
  let stages := ForecastingService.stagesOf s pipelineId in
  let deals := openDealsOf s pipelineId in
  let totalValue := sumValues deals in
  let metrics :=
    PipelineMetrics.mk (length deals) totalValue 0%Q ∅ in
  let averageDealSize :=
    if bool_decide (0 < length deals)%nat
    then (PipelineMetrics.totalValue metrics
          / inject_Z (Z.of_nat (length deals)))%Q
    else 0%Q in
  let stageMetrics :=
    fold_left
      (λ m stage, <[PipelineStage.id stage := stageEntry now deals stage]> m)
      stages (PipelineMetrics.stageMetrics metrics) in
  Ok (PipelineMetrics.mk (PipelineMetrics.totalDeals metrics)
                         (PipelineMetrics.totalValue metrics)
                         averageDealSize stageMetrics).

End PipelineService.

(** ** The stage route and the error handler *)

Module Route.

(** [error.message], [error.code] and [error.statusCode] of the errors the
    services throw: [NotFoundError] sets 404, a plain [CRMError] keeps the
    default 400. *)
Definition message (e : CRMError) : string :=
  match e with
  | NOT_FOUND resource => (resource ++ " not found")%string
  | INVALID_PROGRESSION current next =>
      ("Invalid lifecycle progression from " ++ current ++ " to " ++ next)%string
  end.



(** What a handler can catch: an error of the services or anything else. *)
Inductive Thrown :=
| Service (e : CRMError)
| Unexpected.






End Route.

(** ** DealService: the board *)

Module DealBoard.
Section Priority.
(** The [priority] column of a deal as the position of its enum value (LOW,
    MEDIUM, HIGH, CRITICAL); the modelled deal row does not carry the
    column, so it is read through this function. *)
Variable priority : Deal.t → Z.

(** [orderBy: [{ priority: 'desc' }, { expectedCloseDate: 'asc' }]] *)
Definition boardOrder (a b : DealWithStage) : Prop :=
  priority b.1 < priority a.1
  ∨ (priority a.1 = priority b.1
     ∧ Deal.expectedCloseDate a.1 ≤ Deal.expectedCloseDate b.1).

#[local] Instance boardOrder_dec a b : Decision (boardOrder a b).
Proof. unfold boardOrder. apply _. Defined.

(** [DealService.getDealsByStage] *)
Definition getDealsByStage (s : Store) (pipelineId : string)
    : gmap string (list DealWithStage) :=
  let deals :=
    merge_sort boardOrder (PipelineService.openDealsOf s pipelineId) in
  let stages := ForecastingService.stagesOf s pipelineId in
  fold_left
    (λ result stage,
       <[PipelineStage.id stage :=
           List.filter
             (λ deal, String.eqb (Deal.stageId deal.1) (PipelineStage.id stage))
             deals]> result)
    stages ∅.
End Priority.
End DealBoard.

(** ** ContactService: merging duplicates *)

Module ContactMerge.

(** How a call can end: with a result, with an error of the services, or
    with the store rejecting a write, which rolls the transaction back. *)
Inductive outcome (A : Type) :=
| Returned (a : A)
| Thrown (e : CRMError)
| Rejected.
Arguments Returned {A} a.
Arguments Thrown {A} e.
Arguments Rejected {A}.

Definition Activity_contactId (a : Activity) : string :=
  match a with
  | DEAL_STAGE_CHANGED _ contactId _ _ _ => contactId
  | DEAL_VALUE_CHANGED _ contactId _ _ _ => contactId
  | LIFECYCLE_CHANGE contactId _ _ _ => contactId
  end.

Definition Activity_withContact (contactId : string) (a : Activity) : Activity :=
  match a with
  | DEAL_STAGE_CHANGED dealId _ previousStage newStage reason =>
      DEAL_STAGE_CHANGED dealId contactId previousStage newStage reason
  | DEAL_VALUE_CHANGED dealId _ previousValue newValue products =>
      DEAL_VALUE_CHANGED dealId contactId previousValue newValue products
  | LIFECYCLE_CHANGE _ previousStage newStage reason =>
      LIFECYCLE_CHANGE contactId previousStage newStage reason
  end.

(** [tx.deal.updateMany({ where: { contactId: from }, data: { contactId: to } })];
    the [@updatedAt] column of the rows written is refreshed. *)
Definition reassignDeal (now : Timestamp) (from to : string) (d : Deal.t)
    : Deal.t :=
  if String.eqb (Deal.contactId d) from
  then Deal.mk (Deal.id d) (Deal.value d) (Deal.probability d)
               (Deal.pipelineId d) (Deal.stageId d) (Deal.expectedCloseDate d)
               (Deal.actualCloseDate d) to (Deal.ownerId d) now
               (Deal.stageChangedAt d)
  else d.

Definition reassignActivity (from to : string) (a : Activity) : Activity :=
  if String.eqb (Activity_contactId a) from
  then Activity_withContact to a else a.

(** One round of the loop over the duplicates. Of the tables that refer to
    a contact the store holds the deals and the activities; notes, tasks,
    emails and social profiles are not modelled. *)
Definition reassign (now : Timestamp) (to : string) (s : Store)
    (duplicate : string * Contact.t) : Store :=
  mkStore (reassignDeal now duplicate.1 to <$> deals s)
          (pipelineStages s) (users s) (contacts s) (dealProducts s)
          (reassignActivity duplicate.1 to <$> activities s).

Section Merge.
(** [mergeContactData] is not part of the documented class: the merged
    columns are taken as given. *)
Variable mergeContactData : Contact.t → list Contact.t → Contact.t.

(** [mergeContacts]. A contact row is identified by its primary key, the
    key of the table. The final [update] writes the merged columns to the
    row of [primaryId] and refreshes [@updatedAt]; when [deleteMany] has
    removed that row it finds nothing to write and the transaction is rolled
    back. The relations included in the returned row are those of the stored
    row. *)
Definition mergeContacts (now : Timestamp) (s : Store) (primaryId : string)
    (duplicateIds : list string) : outcome (Store * Contact.t) :=
  match contacts s !! primaryId with
  | None => Thrown (NOT_FOUND "Primary contact")
  | Some primary =>
      let duplicates :=
        List.filter (λ row, bool_decide (row.1 ∈ duplicateIds))
                    (map_to_list (contacts s)) in
      let mergedData := mergeContactData primary (duplicates.*2) in
      let s1 := fold_left (λ s duplicate, reassign now primaryId s duplicate)
                          duplicates s in
      (* deleteMany *)
      let remaining :=
        filter (λ row, row.1 ∉ duplicateIds) (contacts s1) in
      (* update *)
      match remaining !! primaryId with
      | None => Rejected
      | Some current =>
          let updated :=
            Contact.mk (Contact.id current) (Contact.status mergedData)
                       (Contact.lifecycleStage mergedData)
                       (Contact.lastContactedAt mergedData)
                       (Contact.deals current) now in
          Returned
            (mkStore (deals s1) (pipelineStages s1) (users s1)
                     (<[primaryId := updated]> remaining)
                     (dealProducts s1) (activities s1),
             updated)
      end
  end.
End Merge.

End ContactMerge.

(** ** ContactImportService: the import loop *)

Module ContactImportService.

Record ImportOptions := mkImportOptions {
  checkDuplicates : bool;
  skipDuplicates : bool;
  updateDuplicates : bool
}.

Section Importing.
(** A parsed CSV record, the mapped fields, the validated contact data, the
    id of a stored contact and the state of the database. *)
Context {Row Partial Data Id DB : Type}.

Record ImportError := mkImportError {
  row : nat;
  error : string;
  data : Row
}.

Record ImportResult := mkImportResult {
  total : nat;
  success : nat;
  failed : nat;
  duplicates : nat;
  errors : list ImportError
}.

(** The steps the loop calls; [inl message] stands for a thrown error with
    that message. The two that write give the database they leave behind
    and the message of the error they threw, if they threw one. *)
Variable mapFields : Row → string + Partial.
Variable parse : Partial → string + Data.
Variable findDuplicates : DB → Data → string + list Id.
Variable update : DB → Id → Data → DB * option string.
Variable create : DB → Data → DB * option string.

(** The [catch] block; [records.indexOf(record) + 1] is the position of the
    record, the records being distinct objects. *)
Definition recordFailure (results : ImportResult) (index : nat)
    (message : string) (record : Row) : ImportResult :=
  mkImportResult (total results) (success results) (S (failed results))
                 (duplicates results)
                 (errors results ++ [mkImportError (index + 1) message record]).

Definition recordSuccess (results : ImportResult) : ImportResult :=
  mkImportResult (total results) (S (success results)) (failed results)
                 (duplicates results) (errors results).

Definition recordDuplicate (results : ImportResult) : ImportResult :=
  mkImportResult (total results) (success results) (failed results)
                 (S (duplicates results)) (errors results).

(** [await this.contactService.create(validated); results.success++] *)
Definition createContact (db : DB) (results : ImportResult) (index : nat)
    (record : Row) (validated : Data) : DB * ImportResult :=
  match create db validated with
  | (db', Some message) => (db', recordFailure results index message record)
  | (db', None) => (db', recordSuccess results)
  end.

(** The body of [for (const record of records)]. *)
Definition importRecord (options : ImportOptions)
    (state : DB * ImportResult) (indexed : nat * Row) : DB * ImportResult :=
  let '(db, results) := state in
  let '(index, record) := indexed in
  match mapFields record with
  | inl message => (db, recordFailure results index message record)
  | inr contactData =>
      match parse contactData with
      | inl message => (db, recordFailure results index message record)
      | inr validated =>
          if checkDuplicates options then
            match findDuplicates db validated with
            | inl message => (db, recordFailure results index message record)
            | inr found =>
                match found with
                | first :: _ =>
                    if skipDuplicates options then
                      (db, recordDuplicate results)
                    else if updateDuplicates options then
                      match update db first validated with
                      | (db', Some message) =>
                          (db', recordFailure results index message record)
                      | (db', None) => (db', recordSuccess results)
                      end
                    else createContact db results index record validated
                | [] => createContact db results index record validated
                end
            end
          else createContact db results index record validated
      end
  end.

(** [importFromCSV], from the parsed records on. *)
Definition importFromCSV (db : DB) (records : list Row)
    (options : ImportOptions) : DB * ImportResult :=
  let results := mkImportResult (length records) 0 0 0 [] in
  fold_left (importRecord options) (imap pair records) (db, results).
End Importing.

End ContactImportService.

(** ** Further vocabulary *)












(** A deal after all its references to one of [keys] have been turned into
    references to [to]. *)
Definition rewired (now : Timestamp) (keys : list string) (to : string)
    (d : Deal.t) : Deal.t :=
  if bool_decide (Deal.contactId d ∈ keys)
  then Deal.mk (Deal.id d) (Deal.value d) (Deal.probability d)
               (Deal.pipelineId d) (Deal.stageId d) (Deal.expectedCloseDate d)
               (Deal.actualCloseDate d) to (Deal.ownerId d) now
               (Deal.stageChangedAt d)
  else d.

(** Every deal refers to a stored contact. *)
Definition dealsReferToContacts (s : Store) : Prop :=
  ∀ k d, deals s !! k = Some d → is_Some (contacts s !! Deal.contactId d).

(** The counters of an import after the records [processed]: every record
    is counted once, there is one error entry per failure, the entries carry
    the positions of their records in increasing order, and duplicates are
    only counted when they are checked for and skipped. *)
Definition accounted {Row : Type}
    (options : ContactImportService.ImportOptions) (processed : list Row)
    (count : nat) (results : ContactImportService.ImportResult (Row := Row))
    : Prop :=
  ContactImportService.total results = count
  ∧ (ContactImportService.success results
     + ContactImportService.failed results
     + ContactImportService.duplicates results)%nat = length processed
  ∧ length (ContactImportService.errors results)
    = ContactImportService.failed results
  ∧ (∀ e, e ∈ ContactImportService.errors results →
       (1 ≤ ContactImportService.row e ≤ length processed)%nat
       ∧ processed !! (ContactImportService.row e - 1)%nat
         = Some (ContactImportService.data e))
  ∧ (∀ i j e1 e2, ContactImportService.errors results !! i = Some e1 →
       ContactImportService.errors results !! j = Some e2 → (i < j)%nat →
       (ContactImportService.row e1 < ContactImportService.row e2)%nat)
  ∧ (ContactImportService.checkDuplicates options
     && ContactImportService.skipDuplicates options = false →
     ContactImportService.duplicates results = 0%nat).

(** ** Further scenarios *)

Module Examples.

(** The store and the deal after moving the open deal of [Scenario.pipeline]
    into "Proposal" at instant 7. *)
Definition afterMove : Store * Deal.t :=
  match DealService.moveDealToStage 7 Scenario.pipeline "d2" "s2" None with
  | Ok r => r
  | Err _ => (Scenario.pipeline, Scenario.openDeal)
  end.

(** The store and the deal after moving the closed deal of
    [Scenario.repeated] back into its first stage at instant 9. *)
Definition afterReopen : Store * Deal.t :=
  match DealService.moveDealToStage 9 Scenario.repeated "d9" "a1" None with
  | Ok r => r
  | Err _ => (Scenario.repeated, Scenario.closedDeal)
  end.

(** The [pipelines] table that goes with [Scenario.pipeline]. *)
Definition pipelines : gmap string Pipeline.t :=
  {["p1" := Pipeline.mk "p1" "Sales" true true]}.

(** Every deal has the priority MEDIUM. *)
Definition priorityOf (d : Deal.t) : Z := 1.

(** [Scenario.pipeline] with a stage of a second pipeline added, and what
    moving the open deal of pipeline "p1" into that stage gives. *)
Definition twoPipelines : Store :=
  mkStore (deals Scenario.pipeline)
          (<["a1" := Scenario.a1]> (pipelineStages Scenario.pipeline))
          (users Scenario.pipeline) (contacts Scenario.pipeline) [] [].

Definition afterCrossing : Store * Deal.t :=
  match DealService.moveDealToStage 7 twoPipelines "d2" "a1" None with
  | Ok r => r
  | Err _ => (twoPipelines, Scenario.openDeal)
  end.

(** A store with a contact "c2" that duplicates "c1" and owns a deal, and a
    merge that keeps the status and stage of the primary contact. *)
Definition duplicateDeal : Deal.t :=
  Deal.mk "d3" 700 25 "p1" "s1" (40 * msPerDay) None "c2" "u1" 0 0.

Definition withDuplicate : Store :=
  mkStore (<["d3" := duplicateDeal]> (deals Scenario.pipeline))
          (pipelineStages Scenario.pipeline) (users Scenario.pipeline)
          (<["c2" := Scenario.customer]> (contacts Scenario.pipeline)) [] [].

Definition keepPrimary (primary : Contact.t) (duplicates : list Contact.t)
    : Contact.t := primary.

Definition afterMerge : Store * Contact.t :=
  match ContactMerge.mergeContacts keepPrimary 50 withDuplicate "c1" ["c2"] with
  | ContactMerge.Returned r => r
  | _ => (withDuplicate, Scenario.lead)
  end.

(** An import of three rows into a list of e-mail addresses: an empty row
    cannot be mapped, and an address already stored is a duplicate. *)
Definition mapRow (record : string) : string + string :=
  if String.eqb record "" then inl "empty row" else inr record.

Definition parseRow (contactData : string) : string + string :=
  inr contactData.

Definition findRow (db : list string) (validated : string)
    : string + list nat :=
  inr (if bool_decide (validated ∈ db) then [0%nat] else []).

Definition updateRow (db : list string) (id : nat) (validated : string)
    : list string * option string := (db, None).

Definition createRow (db : list string) (validated : string)
    : list string * option string := (db ++ [validated], None).

Definition rows : list string := ["a@x.io"; ""; "a@x.io"].


End Examples.

(** ** Contact lifecycle: properties *)

Section LifecycleProperties.
Import ContactLifecycleService.

Lemma includes_spec l x : includes l x = true ↔ x ∈ l.
Proof.
  unfold includes. rewrite existsb_exists. split.
  - intros (y & Hy & Heq). apply bool_decide_eq_true in Heq. subst.
    by apply list_elem_of_In.
  - intros Hx. exists x. split; [by apply list_elem_of_In|].
    by apply bool_decide_eq_true.
Qed.

(** The code's table and the specification's edge list describe one graph. *)
Lemma isValidProgression_edge c t :
  isValidProgression c t = true ↔ progression_edge c t.
Proof.
  unfold isValidProgression. rewrite orb_false_r. split.
  - destruct c, t; simpl; intros H; try discriminate H; constructor.
  - by destruct 1.
Qed.

Lemma mapLifecycleToStatus_derived t :
  derived_status t (mapLifecycleToStatus t).
Proof. destruct t; constructor. Qed.

(** C3. For an existing contact, [progress] fails with the invalid
    progression error exactly when the requested edge is not in the fixed
    progression graph, and then no store is produced, so the contact stays as
    it was; when the edge exists the call succeeds and the stored contact has
    the target lifecycle stage and the status derived from it. *)
Theorem progress_follows_graph (now : Timestamp) (s : Store)
    (contactId : string) (c : Contact.t) (t : LifecycleStage)
    (reason : option string) :
  contacts s !! contactId = Some c →
  (¬ progression_edge (Contact.lifecycleStage c) t ↔
   progressLifecycleStage now s contactId t reason
   = Err (INVALID_PROGRESSION
            (LifecycleStage_toString (Contact.lifecycleStage c))
            (LifecycleStage_toString t)))
  ∧ (progression_edge (Contact.lifecycleStage c) t ↔
     ∃ s' c',
       progressLifecycleStage now s contactId t reason = Ok (s', c')
       ∧ contacts s' !! contactId = Some c'
       ∧ Contact.lifecycleStage c' = t
       ∧ derived_status t (Contact.status c')).
Proof.
  intros Hc. unfold progressLifecycleStage. rewrite Hc. simpl.
  destruct (isValidProgression (Contact.lifecycleStage c) t) eqn:Hv; simpl.
  - apply isValidProgression_edge in Hv. split.
    + split; [intros Hn; by destruct Hn | discriminate].
    + split; [|done]. intros _. eexists _, _. split; [reflexivity|].
      simpl. rewrite lookup_insert_eq. split; [done|]. split; [done|].
      apply mapLifecycleToStatus_derived.
  - assert (¬ progression_edge (Contact.lifecycleStage c) t) as Hn.
    { intros He. apply isValidProgression_edge in He. congruence. }
    split.
    + done.
    + split; [done|]. intros (s' & c' & Heq & _). discriminate Heq.
Qed.

Lemma progress_follows_graph_witness :
  contacts Scenario.crm !! "c1" = Some Scenario.lead
  ∧ (∃ s' c',
       progressLifecycleStage 5 Scenario.crm "c1" SALES_QUALIFIED None
       = Ok (s', c')
       ∧ Contact.status c' = ContactStatus.QUALIFIED)
  ∧ progressLifecycleStage 5 Scenario.crm "c2" LEAD None
    = Err (INVALID_PROGRESSION "CUSTOMER" "LEAD").
Proof.
  split; [reflexivity|]. split.
  - destruct (progress_follows_graph 5 Scenario.crm "c1" Scenario.lead
                SALES_QUALIFIED None eq_refl) as [_ [Hok _]].
    destruct (Hok edge_LEAD_SQ) as (s' & c' & Heq & _ & _ & Hst).
    exists s', c'. split; [exact Heq|]. inversion Hst. reflexivity.
  - apply (progress_follows_graph 5 Scenario.crm "c2" Scenario.customer
             LEAD None eq_refl).
    intros He. inversion He.
Defined.

(** C10. For an unknown contact id [calculateNextActions] returns the empty
    list instead of failing, and for an existing contact it returns a list of
    at most one action. *)
Theorem calculateNextActions_at_most_one (daysSince : option Timestamp → Z)
    (s : Store) (contactId : string) :
  (contacts s !! contactId = None →
   calculateNextActions daysSince s contactId = Ok [])
  ∧ (∀ c, contacts s !! contactId = Some c →
       ∃ actions,
         calculateNextActions daysSince s contactId = Ok actions
         ∧ (length actions ≤ 1)%nat).
Proof.
  unfold calculateNextActions. split.
  - by intros ->.
  - intros c ->. eexists. split; [reflexivity|].
    destruct (Contact.lifecycleStage c); simpl;
      repeat match goal with |- context [if ?b then _ else _] => destruct b end;
      simpl; lia.
Qed.

Lemma calculateNextActions_at_most_one_witness :
  contacts Scenario.crm !! "nobody" = None
  ∧ calculateNextActions (Scenario.daysSinceAt (40 * msPerDay))
      Scenario.crm "nobody" = Ok []
  ∧ contacts Scenario.crm !! "c2" = Some Scenario.customer
  ∧ ∃ actions,
      calculateNextActions (Scenario.daysSinceAt (40 * msPerDay))
        Scenario.crm "c2" = Ok actions
      ∧ (length actions ≤ 1)%nat.
Proof.
  pose proof (calculateNextActions_at_most_one
                (Scenario.daysSinceAt (40 * msPerDay)) Scenario.crm "nobody")
    as [Hnone _].
  pose proof (calculateNextActions_at_most_one
                (Scenario.daysSinceAt (40 * msPerDay)) Scenario.crm "c2")
    as [_ Hsome].
  split; [reflexivity|]. split; [apply Hnone; reflexivity|].
  split; [reflexivity|]. apply (Hsome Scenario.customer). reflexivity.
Defined.

End LifecycleProperties.

(** ** Deal service: properties *)

Section DealProperties.
Import DealService.

Lemma deals_logActivity a s : deals (logActivity a s) = deals s.
Proof. reflexivity. Qed.

Lemma dealProducts_logActivity a s :
  dealProducts (logActivity a s) = dealProducts s.
Proof. reflexivity. Qed.

Lemma terminalName_eqb n :
  terminalName n
  ↔ (String.eqb n "Closed Won" || String.eqb n "Closed Lost") = true.
Proof.
  unfold terminalName. rewrite orb_true_iff, !String.eqb_eq. tauto.
Qed.

(** C2. Moving an existing deal to an existing stage stores the target stage,
    the stage's default probability and the call time as [stageChangedAt];
    [actualCloseDate] becomes the call time when the target is named
    "Closed Won" or "Closed Lost" and keeps its previous value otherwise. *)
Theorem moveDealToStage_sets_fields (now : Timestamp) (s : Store)
    (dealId stageId : string) (reason : option string)
    (d : Deal.t) (st : PipelineStage.t) :
  deals s !! dealId = Some d →
  pipelineStages s !! stageId = Some st →
  ∃ s' d',
    moveDealToStage now s dealId stageId reason = Ok (s', d')
    ∧ deals s' !! dealId = Some d'
    ∧ Deal.stageId d' = stageId
    ∧ Deal.probability d' = PipelineStage.probability st
    ∧ Deal.stageChangedAt d' = now
    ∧ (terminalName (PipelineStage.name st) →
       Deal.actualCloseDate d' = Some now)
    ∧ (¬ terminalName (PipelineStage.name st) →
       Deal.actualCloseDate d' = Deal.actualCloseDate d).
Proof.
  intros Hd Hst. unfold moveDealToStage. rewrite Hd, Hst. simpl.
  eexists _, _. split; [reflexivity|].
  rewrite deals_logActivity. simpl. rewrite lookup_insert_eq.
  rewrite terminalName_eqb.
  destruct (String.eqb (PipelineStage.name st) "Closed Won");
    destruct (String.eqb (PipelineStage.name st) "Closed Lost");
    simpl; repeat split; intros; congruence.
Qed.

Lemma moveDealToStage_sets_fields_witness :
  deals Scenario.pipeline !! "d2" = Some Scenario.openDeal
  ∧ pipelineStages Scenario.pipeline !! "s3" = Some Scenario.closedWon
  ∧ ∃ s' d',
      moveDealToStage 7 Scenario.pipeline "d2" "s3" None = Ok (s', d')
      ∧ Deal.probability d' = 100
      ∧ Deal.actualCloseDate d' = Some 7.
Proof.
  split; [reflexivity|]. split; [reflexivity|].
  destruct (moveDealToStage_sets_fields 7 Scenario.pipeline "d2" "s3" None
              Scenario.openDeal Scenario.closedWon eq_refl eq_refl)
    as (s' & d' & Heq & _ & _ & Hp & _ & Hclose & _).
  exists s', d'. split; [exact Heq|]. split; [exact Hp|].
  apply Hclose. left. reflexivity.
Defined.

(** The reduce of [calculateDealValue] is the sum of the line totals. *)
Lemma calculateDealValue_sum items :
  calculateDealValue items == sumQ (map lineTotal items).
Proof.
  unfold calculateDealValue.
  assert (∀ acc,
    fold_left
      (λ total product,
         total + (inject_Z (DealProductInput.quantity product)
                  * DealProductInput.unitPrice product
                  - inject_Z (DealProductInput.quantity product)
                    * DealProductInput.unitPrice product
                    * orZero (DealProductInput.discount product) / 100))%Q
      items acc == acc + sumQ (map lineTotal items)) as Hgen.
  { induction items as [|p items IH]; intros acc; simpl.
    - ring.
    - rewrite IH. unfold lineTotal. field. }
  rewrite Hgen. ring.
Qed.

Lemma updateDealValue_ok now s dealId d items :
  deals s !! dealId = Some d →
  ∃ s' d',
    updateDealValue now s dealId items = Ok (s', d')
    ∧ deals s' !! dealId = Some d'
    ∧ Deal.value d' = calculateDealValue items
    ∧ productsOf dealId s'
      = List.filter (λ r, String.eqb (DealProduct.dealId r) dealId)
          (deleteProductsOf dealId (dealProducts s)
           ++ map (productRow dealId) items).
Proof.
  intros Hd. unfold updateDealValue. rewrite Hd. simpl.
  eexists _, _. split; [reflexivity|].
  rewrite deals_logActivity. simpl. rewrite lookup_insert_eq.
  split; [done|]. split; [done|]. reflexivity.
Qed.

(** C5. [recalculateValue] stores as the deal's value the sum over the line
    items of quantity × unitPrice × (1 − discount/100); for the three line
    items (2, 100, 10), (1, 50, 0), (5, 20, 20) the line totals are 180, 50
    and 80 and the stored value is 310. *)
Theorem updateDealValue_stores_line_total (now : Timestamp) (s : Store)
    (dealId : string) (d : Deal.t) :
  deals s !! dealId = Some d →
  (∀ items, ∃ s' d',
     updateDealValue now s dealId items = Ok (s', d')
     ∧ deals s' !! dealId = Some d'
     ∧ Deal.value d' == sumQ (map lineTotal items))
  ∧ (∃ s' d',
       updateDealValue now s dealId Scenario.threeLineItems = Ok (s', d')
       ∧ deals s' !! dealId = Some d'
       ∧ Forall2 Qeq (map lineTotal Scenario.threeLineItems) [180; 50; 80]%Q
       ∧ Deal.value d' == 310).
Proof.
  intros Hd. split.
  - intros items.
    destruct (updateDealValue_ok now s dealId d items Hd)
      as (s' & d' & Heq & Hl & Hv & _).
    exists s', d'. split; [done|]. split; [done|].
    rewrite Hv. apply calculateDealValue_sum.
  - destruct (updateDealValue_ok now s dealId d Scenario.threeLineItems Hd)
      as (s' & d' & Heq & Hl & Hv & _).
    exists s', d'. split; [done|]. split; [done|]. split.
    + repeat constructor.
    + rewrite Hv. reflexivity.
Qed.

Lemma updateDealValue_stores_line_total_witness :
  deals Scenario.pipeline !! "d1" = Some Scenario.staleDeal
  ∧ ∃ s' d',
      updateDealValue 9 Scenario.pipeline "d1" Scenario.threeLineItems
      = Ok (s', d')
      ∧ deals s' !! "d1" = Some d'
      ∧ Deal.value d' == 310.
Proof.
  split; [reflexivity|].
  destruct (updateDealValue_stores_line_total 9 Scenario.pipeline "d1"
              Scenario.staleDeal eq_refl)
    as [_ (s' & d' & Heq & Hl & _ & Hv)].
  exists s', d'. split; [exact Heq|]. split; [exact Hl|]. exact Hv.
Defined.

Lemma productsOf_replaced dealId rows items :
  List.filter (λ r, String.eqb (DealProduct.dealId r) dealId)
    (deleteProductsOf dealId rows ++ map (productRow dealId) items)
  = map (productRow dealId) items.
Proof.
  rewrite List.filter_app. unfold deleteProductsOf.
  assert (List.filter (λ r, String.eqb (DealProduct.dealId r) dealId)
            (List.filter
               (λ r, negb (String.eqb (DealProduct.dealId r) dealId)) rows)
          = []) as ->.
  { induction rows as [|r rows IH]; simpl; [done|].
    destruct (String.eqb (DealProduct.dealId r) dealId) eqn:E; simpl;
      [done | by rewrite E]. }
  simpl. induction items as [|p items IH]; simpl; [done|].
  rewrite String.eqb_refl. by rewrite IH.
Qed.

(** C6. Two successive calls of [recalculateValue] with the same line items
    both succeed and store the same value, and after each of them the deal
    has exactly as many stored line items as the input list. *)
Theorem updateDealValue_idempotent (now1 now2 : Timestamp) (s : Store)
    (dealId : string) (d : Deal.t) (items : list DealProductInput.t) :
  deals s !! dealId = Some d →
  ∃ s1 d1 s2 d2,
    updateDealValue now1 s dealId items = Ok (s1, d1)
    ∧ updateDealValue now2 s1 dealId items = Ok (s2, d2)
    ∧ deals s1 !! dealId = Some d1
    ∧ deals s2 !! dealId = Some d2
    ∧ Deal.value d1 = Deal.value d2
    ∧ length (productsOf dealId s1) = length items
    ∧ length (productsOf dealId s2) = length items.
Proof.
  intros Hd.
  destruct (updateDealValue_ok now1 s dealId d items Hd)
    as (s1 & d1 & Heq1 & Hl1 & Hv1 & Hp1).
  destruct (updateDealValue_ok now2 s1 dealId d1 items Hl1)
    as (s2 & d2 & Heq2 & Hl2 & Hv2 & Hp2).
  exists s1, d1, s2, d2. repeat split; try done.
  - congruence.
  - by rewrite Hp1, productsOf_replaced, length_map.
  - by rewrite Hp2, productsOf_replaced, length_map.
Qed.

Lemma updateDealValue_idempotent_witness :
  deals Scenario.pipeline !! "d1" = Some Scenario.staleDeal
  ∧ ∃ s1 d1 s2 d2,
      updateDealValue 9 Scenario.pipeline "d1" Scenario.threeLineItems
      = Ok (s1, d1)
      ∧ updateDealValue 11 s1 "d1" Scenario.threeLineItems = Ok (s2, d2)
      ∧ Deal.value d1 = Deal.value d2
      ∧ length (productsOf "d1" s2) = 3%nat.
Proof.
  split; [reflexivity|].
  destruct (updateDealValue_idempotent 9 11 Scenario.pipeline "d1"
              Scenario.staleDeal Scenario.threeLineItems eq_refl)
    as (s1 & d1 & s2 & d2 & H1 & H2 & _ & _ & Hv & _ & Hn).
  exists s1, d1, s2, d2. split; [exact H1|]. split; [exact H2|].
  split; [exact Hv|]. exact Hn.
Defined.

Lemma elem_of_findMany {A} (table : gmap string A) (x : A) :
  x ∈ findMany table ↔ ∃ k, table !! k = Some x.
Proof.
  unfold findMany. rewrite list_elem_of_fmap. split.
  - intros ([k y] & -> & Hin). exists k. by apply elem_of_map_to_list.
  - intros (k & Hk). exists (k, x). split; [done|].
    by apply elem_of_map_to_list.
Qed.

Lemma elem_of_List_filter {A} (f : A → bool) (l : list A) (x : A) :
  x ∈ List.filter f l ↔ x ∈ l ∧ f x = true.
Proof. rewrite !list_elem_of_In. apply filter_In. Qed.

Lemma includeStage_Some s d dw :
  includeStage s d = Some dw
  ↔ dw.1 = d ∧ pipelineStages s !! Deal.stageId d = Some dw.2.
Proof.
  unfold includeStage. destruct dw as [d' st]. simpl.
  destruct (pipelineStages s !! Deal.stageId d) as [st'|]; simpl; split.
  - intros [= -> ->]. done.
  - intros [-> [= ->]]. done.
  - discriminate.
  - intros [_ ?]. discriminate.
Qed.

(** What [getRottenDeals] returns: the stored deals, joined with their
    stage and restricted to the owner filter, that are rotten and whose
    threshold is not zero. *)
Lemma getRottenDeals_spec now s ownerId (dw : DealWithStage) :
  dw ∈ getRottenDeals now s ownerId
  ↔ (∃ k, deals s !! k = Some dw.1)
    ∧ pipelineStages s !! Deal.stageId dw.1 = Some dw.2
    ∧ optionalFilter ownerId (Deal.ownerId dw.1) = true
    ∧ rotten now dw
    ∧ PipelineStage.rottenDays dw.2 ≠ Some 0.
Proof.
  unfold getRottenDeals.
  rewrite !elem_of_List_filter, list_elem_of_omap.
  unfold rottenWhere, actuallyRotten, rotten.
  rewrite !andb_true_iff, !bool_decide_eq_true.
  split.
  - intros [[(d & Hd & Hinc) [[Hopen Hsome] Hown]] Hrot].
    apply includeStage_Some in Hinc as [<- Hst].
    apply elem_of_findMany in Hd.
    destruct (PipelineStage.rottenDays dw.2) as [r|]; [|done].
    apply andb_true_iff in Hrot as [Hz Hrot]. simpl in Hz.
    apply negb_true_iff, Z.eqb_neq in Hz. apply Z.ltb_lt in Hrot.
    repeat split; try done; [by exists r | congruence].
  - intros (Hd & Hst & Hown & [Hopen (r & Hr & Hlt)] & Hnz).
    rewrite Hr in *. split; [split|].
    + exists dw.1. split; [by apply elem_of_findMany|].
      by apply includeStage_Some.
    + done.
    + apply andb_true_iff. split.
      * apply negb_true_iff, Z.eqb_neq. congruence.
      * by apply Z.ltb_lt.
Qed.

(** C4, at the failing input. A deal that is open, whose stage has the
    threshold 0 and that has been in its stage for five days satisfies the
    three conditions of a rotten deal, yet [getRottenDeals] returns no
    deal. *)
Theorem getRottenDeals_misses_zero_threshold :
  deals Scenario.pipeline !! "d1" = Some Scenario.staleDeal
  ∧ includeStage Scenario.pipeline Scenario.staleDeal
    = Some (Scenario.staleDeal, Scenario.qualified)
  ∧ rotten (5 * msPerDay) (Scenario.staleDeal, Scenario.qualified)
  ∧ getRottenDeals (5 * msPerDay) Scenario.pipeline None = [].
Proof.
  split; [reflexivity|]. split; [reflexivity|]. split.
  - split; [reflexivity|]. exists 0. split; [reflexivity|].
    vm_compute. reflexivity.
  - vm_compute. reflexivity.
Qed.

End DealProperties.

(** ** Forecast confidence: properties *)

Section ConfidenceProperties.
Import ForecastingService.

(** C1, refuted as stated. A deal with probability 50 whose last update is
    20 days old adds 50 × 0.8 × 0.7 = 28 to the confidence score, not
    50 × 0.7 = 35. *)
Lemma single_multiplier_refuted :
  daysBetween (20 * msPerDay) (Deal.updatedAt Scenario.staleDeal) = 20
  ∧ Deal.probability Scenario.staleDeal = 50
  ∧ confidenceContribution (20 * msPerDay) Scenario.staleDeal == 28
  ∧ ¬ confidenceContribution (20 * msPerDay) Scenario.staleDeal
      == 50 * (7 # 10).
Proof.
  split; [reflexivity|]. split; [reflexivity|]. split.
  - vm_compute. reflexivity.
  - intros H. vm_compute in H. discriminate H.
Qed.

(** C1, as the code has it. The staleness multipliers compound: every
    threshold the age of the last update exceeds contributes its factor, so
    a deal contributes the minimum of 100 and its probability times 0.8
    beyond 7 days, times 0.8 × 0.7 beyond 14 days and times 0.8 × 0.7 × 0.5
    beyond 30 days; up to 2 days the factor is 1.1 and between 3 and 7 days
    the probability is taken as it is. *)
Theorem staleness_multipliers_compound (now : Timestamp) (d : Deal.t) :
  let days := daysBetween now (Deal.updatedAt d) in
  let p := inject_Z (Deal.probability d) in
  (days ≤ 2 →
   confidenceContribution now d == Qmin (p * (11 # 10)) 100)
  ∧ (2 < days ≤ 7 →
     confidenceContribution now d == Qmin p 100)
  ∧ (7 < days ≤ 14 →
     confidenceContribution now d == Qmin (p * (8 # 10)) 100)
  ∧ (14 < days ≤ 30 →
     confidenceContribution now d == Qmin (p * (8 # 10) * (7 # 10)) 100)
  ∧ (30 < days →
     confidenceContribution now d
     == Qmin (p * (8 # 10) * (7 # 10) * (5 # 10)) 100).
Proof.
  intros days p. unfold confidenceContribution, dealConfidence.
  fold days. fold p.
  destruct (Z.ltb_spec 7 days), (Z.ltb_spec 14 days), (Z.ltb_spec 30 days),
    (Z.leb_spec days 2);
    repeat split; intros; try lia; reflexivity.
Qed.

Lemma staleness_multipliers_compound_witness :
  14 < daysBetween (20 * msPerDay) (Deal.updatedAt Scenario.staleDeal) ≤ 30
  ∧ confidenceContribution (20 * msPerDay) Scenario.staleDeal
    == Qmin (50 * (8 # 10) * (7 # 10)) 100.
Proof.
  assert (14 < daysBetween (20 * msPerDay) (Deal.updatedAt Scenario.staleDeal)
          ≤ 30) as Hdays by (vm_compute; split; [reflexivity | discriminate]).
  split; [exact Hdays|].
  destruct (staleness_multipliers_compound (20 * msPerDay) Scenario.staleDeal)
    as (_ & _ & _ & H & _).
  exact (H Hdays).
Defined.

Lemma dealConfidence_nonneg p days : 0 ≤ p → (0 <= dealConfidence p days)%Q.
Proof.
  intros Hp. rewrite Zle_Qle in Hp. unfold dealConfidence.
  set (q := inject_Z p) in *. change (inject_Z 0) with 0%Q in Hp.
  destruct (7 <? days), (14 <? days), (30 <? days), (days <=? 2); lra.
Qed.

Lemma confidenceContribution_bounds now d :
  0 ≤ Deal.probability d →
  (0 <= confidenceContribution now d <= 100)%Q.
Proof.
  intros Hp. unfold confidenceContribution. split.
  - apply Q.min_glb; [by apply dealConfidence_nonneg | lra].
  - apply Q.le_min_r.
Qed.

Lemma confidenceScore_bounds now deals acc :
  Forall (λ d, 0 ≤ Deal.probability d) deals →
  (acc <= fold_left (λ score d, score + confidenceContribution now d) deals acc
   <= acc + 100 * inject_Z (Z.of_nat (length deals)))%Q.
Proof.
  intros Hall. revert acc.
  induction Hall as [|d deals Hd _ IH]; intros acc.
  - cbn [fold_left length]. change (inject_Z (Z.of_nat 0)) with 0%Q. lra.
  - cbn [fold_left length]. specialize (IH (acc + confidenceContribution now d)%Q).
    pose proof (confidenceContribution_bounds now d Hd) as Hc.
    rewrite Nat2Z.inj_succ, <- Z.add_1_r, inject_Z_plus.
    change (inject_Z 1) with 1%Q. lra.
Qed.

Lemma Math_round_bounds (x n : Q) :
  (0 < n)%Q → (0 <= x <= 100 * n)%Q → 0 ≤ Math_round (x / n) ≤ 100.
Proof.
  intros Hn [Hlo Hhi]. unfold Math_round.
  assert (0 <= x / n)%Q as Hq0 by (apply Qle_shift_div_l; lra).
  assert (x / n <= 100)%Q as Hq1 by (apply Qle_shift_div_r; lra).
  set (y := (x / n)%Q) in *. split.
  - change 0 with (Qfloor 0). apply Qfloor_resp_le. lra.
  - change 100 with (Qfloor (100 + (1 # 2))). apply Qfloor_resp_le. lra.
Qed.

Lemma calculateConfidence_bounds now deals :
  Forall (λ d, 0 ≤ Deal.probability d) deals →
  0 ≤ calculateConfidence now deals ≤ 100.
Proof.
  intros Hall. unfold calculateConfidence. case_bool_decide as Hlen; [lia|].
  apply Math_round_bounds.
  - change 0%Q with (inject_Z 0). rewrite <- Zlt_Qlt. lia.
  - pose proof (confidenceScore_bounds now deals 0 Hall). lra.
Qed.

Lemma confidence_addDeal f d :
  Forecast.confidence (addDeal f d) = Forecast.confidence f.
Proof. reflexivity. Qed.

Lemma confidence_fold deals f :
  Forecast.confidence (fold_left addDeal deals f) = Forecast.confidence f.
Proof.
  revert f. induction deals as [|d deals IH]; intros f; simpl; [done|].
  by rewrite IH.
Qed.

Lemma confidence_generateForecast getPeriodDates now s period options :
  Forecast.confidence (generateForecast getPeriodDates now s period options)
  = calculateConfidence now
      (ForecastDeal.deal <$> selectDeals getPeriodDates s period options).
Proof.
  unfold generateForecast, setAverages. cbn [Forecast.confidence].
  by rewrite confidence_fold.
Qed.

(** C8. The confidence of a generated forecast lies between 0 and 100 when
    at least one deal is selected and the selected deals have probabilities
    between 0 and 100, and it is 0 when no deal is selected. *)
Theorem confidence_in_range
    (getPeriodDates : ForecastPeriod → Timestamp * Timestamp)
    (now : Timestamp) (s : Store) (period : ForecastPeriod)
    (options : ForecastOptions) :
  let selected := selectDeals getPeriodDates s period options in
  let forecast := generateForecast getPeriodDates now s period options in
  (selected ≠ [] →
   Forall (λ d, 0 ≤ Deal.probability (ForecastDeal.deal d) ≤ 100) selected →
   0 ≤ Forecast.confidence forecast ≤ 100)
  ∧ (selected = [] → Forecast.confidence forecast = 0).
Proof.
  intros selected forecast. subst forecast.
  rewrite confidence_generateForecast. fold selected. split.
  - intros _ Hall. apply calculateConfidence_bounds.
    apply Forall_fmap. eapply Forall_impl; [exact Hall|].
    intros d [H0 _]. exact H0.
  - intros ->. reflexivity.
Qed.

Lemma confidence_in_range_witness :
  selectDeals Scenario.window Scenario.pipeline THIS_MONTH
    (mkOptions None None) ≠ []
  ∧ Forall (λ d, 0 ≤ Deal.probability (ForecastDeal.deal d) ≤ 100)
      (selectDeals Scenario.window Scenario.pipeline THIS_MONTH
         (mkOptions None None))
  ∧ 0 ≤ Forecast.confidence
          (generateForecast Scenario.window (41 * msPerDay) Scenario.pipeline
             THIS_MONTH (mkOptions None None)) ≤ 100.
Proof.
  assert (selectDeals Scenario.window Scenario.pipeline THIS_MONTH
            (mkOptions None None) ≠ []) as Hne
    by (vm_compute; discriminate).
  assert (Forall (λ d, 0 ≤ Deal.probability (ForecastDeal.deal d) ≤ 100)
            (selectDeals Scenario.window Scenario.pipeline THIS_MONTH
               (mkOptions None None))) as Hall
    by (vm_compute; repeat constructor; discriminate).
  split; [exact Hne|]. split; [exact Hall|].
  destruct (confidence_in_range Scenario.window (41 * msPerDay)
              Scenario.pipeline THIS_MONTH (mkOptions None None))
    as [Hrange _].
  exact (Hrange Hne Hall).
Defined.

End ConfidenceProperties.

(** ** Forecast totals: properties *)

Section ForecastProperties.
Import ForecastingService.

Lemma weighted_le_value d :
  plausible d → (weighted d <= Deal.value (ForecastDeal.deal d))%Q.
Proof.
  intros [Hv [Hp0 Hp1]]. unfold weighted.
  rewrite Zle_Qle in Hp0, Hp1.
  set (v := Deal.value (ForecastDeal.deal d)) in *.
  set (q := inject_Z (Deal.probability (ForecastDeal.deal d))) in *.
  change (inject_Z 0) with 0%Q in Hp0.
  change (inject_Z 100) with 100%Q in Hp1.
  assert (v * (q / 100) == v - v * (100 - q) * (1 # 100))%Q as -> by field.
  assert (0 <= v * (100 - q))%Q by (apply Qmult_le_0_compat; lra).
  set (slack := (v * (100 - q))%Q) in *. lra.
Qed.

Lemma addDeal_within f d :
  plausible d → weightedWithinTotal f → weightedWithinTotal (addDeal f d).
Proof.
  intros Hd (Hall & Hstage & Howner).
  pose proof (weighted_le_value d Hd) as Hw. unfold weighted in Hw.
  unfold weightedWithinTotal, addDeal. cbn [Forecast.weightedValue
    Forecast.totalValue Forecast.byStage Forecast.byOwner].
  split; [lra|]. split.
  - intros stageName m. rewrite lookup_insert. case_decide as Hk.
    + intros [= <-]. cbn [StageMetrics.weightedValue StageMetrics.totalValue].
      unfold stageBucket.
      destruct (Forecast.byStage f !! PipelineStage.name (ForecastDeal.stage d))
        as [m0|] eqn:Hm0; simpl.
      * specialize (Hstage _ _ Hm0). lra.
      * lra.
    + apply Hstage.
  - intros ownerName m. rewrite lookup_insert. case_decide as Hk.
    + intros [= <-]. cbn [OwnerMetrics.weightedValue OwnerMetrics.totalValue].
      unfold ownerBucket.
      destruct (Forecast.byOwner f
                  !! orUnassigned (User.name (ForecastDeal.owner d)))
        as [m0|] eqn:Hm0; simpl.
      * specialize (Howner _ _ Hm0). lra.
      * lra.
    + apply Howner.
Qed.

Lemma fold_addDeal_within deals f :
  Forall plausible deals →
  weightedWithinTotal f → weightedWithinTotal (fold_left addDeal deals f).
Proof.
  intros Hall. revert f.
  induction Hall as [|d deals Hd _ IH]; intros f Hf; simpl; [done|].
  apply IH. by apply addDeal_within.
Qed.

Lemma setAverages_within deals f :
  weightedWithinTotal f → weightedWithinTotal (setAverages deals f).
Proof.
  intros (Hall & Hstage & Howner). unfold weightedWithinTotal, setAverages.
  cbn [Forecast.weightedValue Forecast.totalValue Forecast.byStage
       Forecast.byOwner].
  split; [done|]. split; [|done].
  intros stageName m. rewrite map_lookup_imap.
  destruct (Forecast.byStage f !! stageName) as [m0|] eqn:Hm0; simpl; [|done].
  intros [= <-]. simpl. by apply (Hstage stageName).
Qed.

Lemma fold_addDeal_totals deals f :
  (Forecast.totalValue (fold_left addDeal deals f)
   == Forecast.totalValue f
      + sumQ (map (λ d, Deal.value (ForecastDeal.deal d)) deals))%Q
  ∧ (Forecast.weightedValue (fold_left addDeal deals f)
     == Forecast.weightedValue f + sumQ (map weighted deals))%Q.
Proof.
  revert f. induction deals as [|d deals IH]; intros f; simpl.
  - split; ring.
  - destruct (IH (addDeal f d)) as [-> ->]. unfold weighted. simpl.
    split; ring.
Qed.

(** C7. In every forecast generated over deals with non-negative values and
    probabilities between 0 and 100, the total value is the sum of the
    values of the selected deals, the weighted value is the sum of value ×
    (probability/100), and the weighted value does not exceed the total
    value, overall and in every per-stage and per-owner bucket. *)
Theorem generateForecast_weighted_le_total
    (getPeriodDates : ForecastPeriod → Timestamp * Timestamp)
    (now : Timestamp) (s : Store) (period : ForecastPeriod)
    (options : ForecastOptions) :
  let selected := selectDeals getPeriodDates s period options in
  let forecast := generateForecast getPeriodDates now s period options in
  Forall plausible selected →
  Forecast.totalValue forecast
  == sumQ (map (λ d, Deal.value (ForecastDeal.deal d)) selected)
  ∧ Forecast.weightedValue forecast == sumQ (map weighted selected)
  ∧ weightedWithinTotal forecast.
Proof.
  intros selected forecast Hall. subst forecast. unfold generateForecast.
  fold selected. split; [|split].
  - cbn [setAverages Forecast.totalValue].
    rewrite (proj1 (fold_addDeal_totals selected _)). simpl. ring.
  - cbn [setAverages Forecast.weightedValue].
    rewrite (proj2 (fold_addDeal_totals selected _)). simpl. ring.
  - apply setAverages_within, fold_addDeal_within; [done|].
    split; [simpl; lra|].
    split; intros k m; cbn [Forecast.byStage Forecast.byOwner];
      rewrite lookup_empty; done.
Qed.

Lemma generateForecast_weighted_le_total_witness :
  Forall plausible
    (selectDeals Scenario.window Scenario.pipeline THIS_MONTH
       (mkOptions None None))
  ∧ Forecast.totalValue
      (generateForecast Scenario.window (41 * msPerDay) Scenario.pipeline
         THIS_MONTH (mkOptions None None)) == 20000
  ∧ Forecast.weightedValue
      (generateForecast Scenario.window (41 * msPerDay) Scenario.pipeline
         THIS_MONTH (mkOptions None None)) == 10000
  ∧ weightedWithinTotal
      (generateForecast Scenario.window (41 * msPerDay) Scenario.pipeline
         THIS_MONTH (mkOptions None None)).
Proof.
  assert (Forall plausible
            (selectDeals Scenario.window Scenario.pipeline THIS_MONTH
               (mkOptions None None))) as Hall
    by (vm_compute; repeat constructor; discriminate).
  split; [exact Hall|].
  destruct (generateForecast_weighted_le_total Scenario.window (41 * msPerDay)
              Scenario.pipeline THIS_MONTH (mkOptions None None) Hall)
    as (Ht & Hw & Hin).
  split; [|split; [|exact Hin]].
  - rewrite Ht. vm_compute. reflexivity.
  - rewrite Hw. vm_compute. reflexivity.
Defined.

End ForecastProperties.

(** ** Conversion rates: properties *)

Section ConversionProperties.
Import ForecastingService.

Variable passed : DealWithStage → string → bool.
Variable oneYearBefore : Timestamp → Timestamp.

Lemma conversionKey_pairKey pair : conversionKey pair.1 pair.2 = pairKey pair.
Proof. reflexivity. Qed.

Lemma conversionEntry_entryFor deals pair :
  entryFor passed deals pair (conversionEntry passed deals pair.1 pair.2).
Proof.
  unfold entryFor, conversionEntry, passedThrough.
  cbn [ConversionRate.from ConversionRate.to ConversionRate.deals
       ConversionRate.rate].
  repeat split.
  - intros ->. by rewrite bool_decide_eq_false_2 by lia.
  - intros Hn. by rewrite bool_decide_eq_true_2 by lia.
Qed.

Lemma conversionLoop_writes deals stages acc :
  conversionLoop passed deals stages acc
  = list_to_map (reverse (writes passed deals stages)) ∪ acc.
Proof.
  revert acc. induction stages as [|cur rest IH]; intros acc.
  - simpl. by rewrite (left_id ∅ (∪)).
  - destruct rest as [|next rest].
    + simpl. by rewrite (left_id ∅ (∪)).
    + change (conversionLoop passed deals (cur :: next :: rest) acc)
        with (conversionLoop passed deals (next :: rest)
                (<[conversionKey cur next :=
                     conversionEntry passed deals cur next]> acc)).
      rewrite IH.
      change (writes passed deals (cur :: next :: rest))
        with ((pairKey (cur, next), conversionEntry passed deals cur next)
              :: writes passed deals (next :: rest)).
      rewrite reverse_cons, list_to_map_app. simpl.
      rewrite insert_empty, <- (assoc_L (∪)), <- insert_union_singleton_l.
      reflexivity.
Qed.

Lemma getConversionRates_writes now s pipelineId :
  getConversionRates passed oneYearBefore now s pipelineId
  = list_to_map
      (reverse (writes passed (closedDeals oneYearBefore now s pipelineId)
                       (stagesOf s pipelineId))).
Proof.
  unfold getConversionRates. rewrite conversionLoop_writes.
  by rewrite (right_id ∅ (∪)).
Qed.

Lemma writes_keys deals stages :
  (writes passed deals stages).*1 = pairKey <$> adjacentPairs stages.
Proof. unfold writes. by rewrite <- list_fmap_compose. Qed.

(** C9, as the code has it. Every entry of the result was written for some
    adjacent stage pair, under the pair's key, with the pair's names, the
    count of the earlier stage and the rate later count / earlier count ×
    100, or 0 when no deal passed through the earlier stage; the key of
    every adjacent pair is present; and when the keys of the adjacent pairs
    are pairwise distinct the result has one entry per pair, each under its
    pair's key. *)
Theorem getConversionRates_entries (now : Timestamp) (s : Store)
    (pipelineId : string) :
  let deals := closedDeals oneYearBefore now s pipelineId in
  let pairs := adjacentPairs (stagesOf s pipelineId) in
  let rates := getConversionRates passed oneYearBefore now s pipelineId in
  (∀ key e, rates !! key = Some e →
     ∃ pair, pair ∈ pairs ∧ key = pairKey pair ∧ entryFor passed deals pair e)
  ∧ (∀ pair, pair ∈ pairs → is_Some (rates !! pairKey pair))
  ∧ (NoDup (pairKey <$> pairs) →
     size rates = length pairs
     ∧ ∀ pair, pair ∈ pairs →
         ∃ e, rates !! pairKey pair = Some e ∧ entryFor passed deals pair e).
Proof.
  intros deals pairs rates. subst rates.
  rewrite getConversionRates_writes. fold deals.
  split; [|split].
  - intros key e Hl. apply elem_of_list_to_map_2 in Hl.
    rewrite elem_of_reverse in Hl. unfold writes in Hl. apply list_elem_of_fmap in Hl as (pair & [= -> ->] & Hin).
    exists pair. split; [done|]. split; [done|].
    apply conversionEntry_entryFor.
  - intros pair Hin. apply not_eq_None_Some. intros Hnone.
    apply not_elem_of_list_to_map in Hnone. apply Hnone.
    rewrite fmap_reverse, elem_of_reverse, writes_keys.
    apply list_elem_of_fmap. by exists pair.
  - intros Hnd.
    assert (NoDup (reverse (writes passed deals (stagesOf s pipelineId))).*1)
      as Hnd'.
    { rewrite fmap_reverse, reverse_Permutation. by rewrite writes_keys. }
    split.
    + rewrite map_size_list_to_map by done.
      unfold writes. by rewrite length_reverse, length_fmap.
    + intros pair Hin. eexists. split.
      * apply elem_of_list_to_map_1; [done|]. rewrite elem_of_reverse.
        unfold writes. apply list_elem_of_fmap. by exists pair.
      * apply conversionEntry_entryFor.
Qed.

End ConversionProperties.

Section ConversionScenarios.
Import ForecastingService.

Lemma getConversionRates_entries_witness :
  NoDup (pairKey <$> adjacentPairs (stagesOf Scenario.pipeline "p1"))
  ∧ size (getConversionRates (Scenario.reached Scenario.pipeline)
            Scenario.yearBefore (400 * msPerDay) Scenario.pipeline "p1")
    = 2%nat
  ∧ ∃ e,
      getConversionRates (Scenario.reached Scenario.pipeline)
        Scenario.yearBefore (400 * msPerDay) Scenario.pipeline "p1"
      !! "Qualified_to_Proposal" = Some e
      ∧ ConversionRate.rate e == 0.
Proof.
  assert (NoDup (pairKey <$> adjacentPairs (stagesOf Scenario.pipeline "p1")))
    as Hnd by (apply (bool_decide_unpack _); vm_compute; exact I).
  split; [exact Hnd|].
  destruct (getConversionRates_entries (Scenario.reached Scenario.pipeline)
              Scenario.yearBefore (400 * msPerDay) Scenario.pipeline "p1")
    as (_ & _ & Hdistinct).
  destruct (Hdistinct Hnd) as [Hsize Hentry].
  split; [rewrite Hsize; vm_compute; reflexivity|].
  destruct (Hentry (Scenario.qualified, Scenario.proposal))
    as (e & He & _ & _ & _ & Hzero & _).
  { vm_compute. left. }
  exists e. split; [exact He|]. apply Hzero. vm_compute. reflexivity.
Defined.

(** C9, refuted as stated. In a pipeline whose three stages are all named
    "A" the two adjacent pairs share the key "A_to_A": the result has one
    entry, not two, and the entry found under the key of the first pair has
    the rate 0 of the second pair, although one deal passed through both
    stages of the first pair. *)
Lemma one_entry_per_pair_refuted :
  adjacentPairs (stagesOf Scenario.repeated "p9")
  = [(Scenario.a1, Scenario.a2); (Scenario.a2, Scenario.a3)]
  ∧ size (getConversionRates (Scenario.reached Scenario.repeated)
            Scenario.yearBefore (400 * msPerDay) Scenario.repeated "p9")
    = 1%nat
  ∧ passedThrough (Scenario.reached Scenario.repeated)
      (closedDeals Scenario.yearBefore (400 * msPerDay) Scenario.repeated "p9")
      Scenario.a1 = 1%nat
  ∧ passedThrough (Scenario.reached Scenario.repeated)
      (closedDeals Scenario.yearBefore (400 * msPerDay) Scenario.repeated "p9")
      Scenario.a2 = 1%nat
  ∧ ∃ e,
      getConversionRates (Scenario.reached Scenario.repeated)
        Scenario.yearBefore (400 * msPerDay) Scenario.repeated "p9"
      !! pairKey (Scenario.a1, Scenario.a2) = Some e
      ∧ ConversionRate.rate e == 0
      ∧ ¬ ConversionRate.rate e == 1 / 1 * 100.
Proof.
  split; [vm_compute; reflexivity|]. split; [vm_compute; reflexivity|].
  split; [vm_compute; reflexivity|]. split; [vm_compute; reflexivity|].
  eexists. split; [vm_compute; reflexivity|]. split.
  - vm_compute. reflexivity.
  - intros H. vm_compute in H. discriminate H.
Qed.

End ConversionScenarios.

(** ** The scenarios on binary64 *)

Section Binary64Scenarios.
Import PrimFloat.

(** The literals of [Binary64.dealConfidence] are the doubles nearest to
    0.8, 0.7 and 1.1. *)
Example binary64_literals :
  (PrimFloat.div 8 10 = 0x1.999999999999ap-1
   ∧ PrimFloat.div 7 10 = 0x1.6666666666666p-1
   ∧ PrimFloat.div 11 10 = 0x1.199999999999ap+0)%float.
Proof. repeat split; vm_compute; reflexivity. Qed.

(** The three line items of the end-to-end scenario total exactly 310 in
    double arithmetic as well. *)
Example calculateDealValue_binary64 :
  Binary64.calculateDealValue
    [(2, 100, 10); (1, 50, 0); (5, 20, 20)]%float = 310%float.
Proof. vm_compute. reflexivity. Qed.

(** In double arithmetic too, a probability of 50 that is 20 days stale
    becomes 28, where the single multiplier 0.7 would give 35. *)
Example dealConfidence_binary64 :
  Binary64.dealConfidence 50 20 = 28%float
  ∧ PrimFloat.mul 50 0x1.6666666666666p-1 = 35%float.
Proof. split; vm_compute; reflexivity. Qed.

End Binary64Scenarios.

(** ** Stage moves: errors, frame and interplay with the read side *)

Section StageMoveProperties.
Import DealService ForecastingService.

(** X1. [moveDealToStage] fails exactly when the deal or the target stage is
    missing; the deal is looked up first, so an unknown deal is reported
    even when the stage is unknown too. *)
Theorem moveDealToStage_fails_iff (now : Timestamp) (s : Store)
    (dealId stageId : string) (reason : option string) (e : CRMError) :
  moveDealToStage now s dealId stageId reason = Err e
  ↔ (deals s !! dealId = None ∧ e = NOT_FOUND "Deal")
    ∨ (is_Some (deals s !! dealId)
       ∧ pipelineStages s !! stageId = None
       ∧ e = NOT_FOUND "Pipeline stage").
Proof.
  unfold moveDealToStage.
  destruct (deals s !! dealId) as [d|] eqn:Hd; simpl.
  - destruct (pipelineStages s !! stageId) as [st|] eqn:Hst; simpl.
    + split; [discriminate|]. intros [[? _]|(_ & ? & _)]; discriminate.
    + split.
      * intros [= <-]. right. eauto.
      * intros [[? _]|(_ & _ & ->)]; [discriminate | done].
  - split.
    + intros [= <-]. by left.
    + intros [[_ ->]|([? ?] & _)]; [done | discriminate].
Qed.

(** X2. A successful move touches one deal row and the log: every other deal,
    the stages, users, contacts and line items are as before; of the moved
    deal the value, pipeline, contact, owner and expected close date are
    kept (the target stage may belong to another pipeline, the deal's
    [pipelineId] is not adjusted); and exactly one activity is appended,
    carrying the name of the previous stage and of the new one. *)
Theorem moveDealToStage_frame (now : Timestamp) (s s' : Store)
    (dealId stageId : string) (reason : option string) (d' : Deal.t) :
  moveDealToStage now s dealId stageId reason = Ok (s', d') →
  (∀ k, k ≠ dealId → deals s' !! k = deals s !! k)
  ∧ pipelineStages s' = pipelineStages s
  ∧ users s' = users s
  ∧ contacts s' = contacts s
  ∧ dealProducts s' = dealProducts s
  ∧ ∃ d st,
      deals s !! dealId = Some d
      ∧ pipelineStages s !! stageId = Some st
      ∧ Deal.id d' = Deal.id d
      ∧ Deal.value d' = Deal.value d
      ∧ Deal.pipelineId d' = Deal.pipelineId d
      ∧ Deal.contactId d' = Deal.contactId d
      ∧ Deal.ownerId d' = Deal.ownerId d
      ∧ Deal.expectedCloseDate d' = Deal.expectedCloseDate d
      ∧ Deal.updatedAt d' = now
      ∧ activities s'
        = activities s
          ++ [DEAL_STAGE_CHANGED dealId (Deal.contactId d)
                (PipelineStage.name <$> pipelineStages s !! Deal.stageId d)
                (PipelineStage.name st) reason].
Proof.
  unfold moveDealToStage.
  destruct (deals s !! dealId) as [d|] eqn:Hd; simpl; [|discriminate].
  destruct (pipelineStages s !! stageId) as [st|] eqn:Hst; simpl;
    [|discriminate].
  intros [= <- <-]. simpl.
  split; [intros k Hk; by rewrite lookup_insert_ne|].
  do 4 (split; [reflexivity|]).
  exists d, st.
  destruct (String.eqb (PipelineStage.name st) "Closed Won"),
    (String.eqb (PipelineStage.name st) "Closed Lost");
    do 9 (split; [reflexivity|]); reflexivity.
Qed.

Lemma moveDealToStage_frame_witness :
  ∃ s' d',
    moveDealToStage 7 Scenario.pipeline "d2" "s3" (Some "signed") = Ok (s', d')
    ∧ deals s' !! "d1" = deals Scenario.pipeline !! "d1"
    ∧ dealProducts s' = dealProducts Scenario.pipeline
    ∧ length (activities s') = 1%nat.
Proof.
  destruct (moveDealToStage 7 Scenario.pipeline "d2" "s3" (Some "signed"))
    as [[s' d']|e] eqn:Hm; [|vm_compute in Hm; discriminate Hm].
  exists s', d'. split; [reflexivity|].
  destruct (moveDealToStage_frame 7 Scenario.pipeline s' "d2" "s3"
              (Some "signed") d' Hm)
    as (Hother & _ & _ & _ & Hproducts & d & st & _ & _ & _ & _ & _ & _ & _ & _
        & _ & Hlog).
  split; [apply Hother; discriminate|]. split; [exact Hproducts|].
  rewrite Hlog. reflexivity.
Defined.

Lemma moveDealToStage_inv now s s' dealId stageId reason d' :
  moveDealToStage now s dealId stageId reason = Ok (s', d') →
  ∃ d st,
    deals s !! dealId = Some d
    ∧ pipelineStages s !! stageId = Some st
    ∧ deals s' = <[dealId := d']> (deals s)
    ∧ pipelineStages s' = pipelineStages s
    ∧ users s' = users s
    ∧ Deal.stageId d' = stageId
    ∧ Deal.ownerId d' = Deal.ownerId d
    ∧ Deal.pipelineId d' = Deal.pipelineId d
    ∧ Deal.stageChangedAt d' = now
    ∧ Deal.actualCloseDate d'
      = if String.eqb (PipelineStage.name st) "Closed Won"
           || String.eqb (PipelineStage.name st) "Closed Lost"
        then Some now else Deal.actualCloseDate d.
Proof.
  unfold moveDealToStage.
  destruct (deals s !! dealId) as [d|] eqn:Hd; simpl; [|discriminate].
  destruct (pipelineStages s !! stageId) as [st|] eqn:Hst; simpl;
    [|discriminate].
  intros [= <- <-]. exists d, st. simpl.
  destruct (String.eqb (PipelineStage.name st) "Closed Won"),
    (String.eqb (PipelineStage.name st) "Closed Lost");
    do 9 (split; [reflexivity|]); reflexivity.
Qed.

(** X3. No stage move removes a deal or clears a close date: after a successful
    move of any deal, every deal that existed still exists, and its
    [actualCloseDate] is either what it was or the time of the move. *)
Theorem moveDealToStage_keeps_close_dates (now : Timestamp) (s s' : Store)
    (dealId stageId : string) (reason : option string) (d' : Deal.t)
    (k : string) (d : Deal.t) :
  moveDealToStage now s dealId stageId reason = Ok (s', d') →
  deals s !! k = Some d →
  ∃ d1,
    deals s' !! k = Some d1
    ∧ (Deal.actualCloseDate d1 = Deal.actualCloseDate d
       ∨ Deal.actualCloseDate d1 = Some now)
    ∧ (is_Some (Deal.actualCloseDate d) → is_Some (Deal.actualCloseDate d1)).
Proof.
  intros Hm Hk.
  destruct (moveDealToStage_inv _ _ _ _ _ _ _ Hm)
    as (d0 & st & Hd0 & Hst & Hdeals & _ & _ & _ & _ & _ & _ & Hacd).
  rewrite Hdeals. destruct (decide (k = dealId)) as [->|Hne].
  - assert (d0 = d) as -> by congruence.
    exists d'. rewrite lookup_insert_eq. split; [done|]. rewrite Hacd.
    destruct (_ || _); split; eauto.
  - exists d. rewrite lookup_insert_ne by done. eauto.
Qed.

Lemma moveDealToStage_keeps_close_dates_witness :
  ∃ s' d',
    moveDealToStage 9 Scenario.repeated "d9" "a1" None = Ok (s', d')
    ∧ deals Scenario.repeated !! "d9" = Some Scenario.closedDeal
    ∧ ∃ d1,
        deals s' !! "d9" = Some d1
        ∧ is_Some (Deal.actualCloseDate d1).
Proof.
  destruct (moveDealToStage 9 Scenario.repeated "d9" "a1" None)
    as [[s' d']|e] eqn:Hm; [|vm_compute in Hm; discriminate Hm].
  exists s', d'. split; [reflexivity|]. split; [reflexivity|].
  destruct (moveDealToStage_keeps_close_dates 9 Scenario.repeated s' "d9" "a1"
              None d' "d9" Scenario.closedDeal Hm eq_refl)
    as (d1 & Hd1 & _ & Hkeep).
  exists d1. split; [exact Hd1|]. apply Hkeep. eexists. reflexivity.
Defined.

Lemma includeStageOwner_Some s d fd :
  includeStageOwner s d = Some fd
  ↔ ForecastDeal.deal fd = d
    ∧ pipelineStages s !! Deal.stageId d = Some (ForecastDeal.stage fd)
    ∧ users s !! Deal.ownerId d = Some (ForecastDeal.owner fd).
Proof.
  unfold includeStageOwner. destruct fd as [d0 st0 u0]. simpl.
  destruct (pipelineStages s !! Deal.stageId d) as [st|]; simpl;
    [destruct (users s !! Deal.ownerId d) as [u|]; simpl|]; split;
    try discriminate; try (intros (_ & ? & ?); discriminate).
  - intros [= -> -> ->]. done.
  - intros (-> & [= ->] & [= ->]). done.
Qed.

(** The deals a forecast is computed from: the stored deals without a close
    date whose expected close date lies in the window, both ends included,
    that pass the owner and pipeline filters, each joined with its stage and
    owner. *)
Lemma selectDeals_spec getPeriodDates s period options fd :
  fd ∈ selectDeals getPeriodDates s period options
  ↔ (∃ k, deals s !! k = Some (ForecastDeal.deal fd))
    ∧ pipelineStages s !! Deal.stageId (ForecastDeal.deal fd)
      = Some (ForecastDeal.stage fd)
    ∧ users s !! Deal.ownerId (ForecastDeal.deal fd)
      = Some (ForecastDeal.owner fd)
    ∧ Deal.actualCloseDate (ForecastDeal.deal fd) = None
    ∧ (getPeriodDates period).1
      ≤ Deal.expectedCloseDate (ForecastDeal.deal fd)
      ≤ (getPeriodDates period).2
    ∧ optionalFilter (ownerId options) (Deal.ownerId (ForecastDeal.deal fd))
      = true
    ∧ optionalFilter (pipelineId options)
        (Deal.pipelineId (ForecastDeal.deal fd)) = true.
Proof.
  unfold selectDeals. destruct (getPeriodDates period) as [startDate endDate].
  rewrite list_elem_of_omap. setoid_rewrite elem_of_List_filter.
  setoid_rewrite elem_of_findMany. setoid_rewrite includeStageOwner_Some.
  unfold forecastWhere. setoid_rewrite andb_true_iff.
  setoid_rewrite andb_true_iff. setoid_rewrite andb_true_iff.
  setoid_rewrite andb_true_iff. setoid_rewrite bool_decide_eq_true.
  setoid_rewrite Z.leb_le. simpl. split.
  - intros (d & [Hk ((((? & ?) & ?) & ?) & ?)] & <- & ? & ?). done.
  - intros (Hk & ? & ? & ? & [? ?] & ? & ?).
    exists (ForecastDeal.deal fd). done.
Qed.

(** X4. After a move the deal can turn up among the rotten deals only if the
    target stage is not a closing stage and has a threshold that the time
    since the move exceeds; in particular not at the time of the move when
    the threshold is not negative. *)
Theorem moved_deal_rotten_only_after_threshold (now t : Timestamp)
    (s s' : Store) (dealId stageId : string) (reason owner : option string)
    (d' : Deal.t) (dw : DealWithStage) :
  moveDealToStage now s dealId stageId reason = Ok (s', d') →
  dw ∈ getRottenDeals t s' owner →
  dw.1 = d' →
  pipelineStages s !! stageId = Some dw.2
  ∧ ¬ terminalName (PipelineStage.name dw.2)
  ∧ ∃ r, PipelineStage.rottenDays dw.2 = Some r ∧ r < daysBetween t now.
Proof.
  intros Hm Hin Heq.
  destruct (moveDealToStage_inv _ _ _ _ _ _ _ Hm)
    as (d & st & Hd & Hst & _ & Hstages & _ & Hsid & _ & _ & Hchanged & Hacd).
  apply getRottenDeals_spec in Hin
    as (_ & Hjoin & _ & [Hopen (r & Hr & Hlt)] & _).
  rewrite Heq, Hstages, Hsid in Hjoin. rewrite Heq in Hopen, Hlt.
  assert (dw.2 = st) as Hst2 by congruence.
  split; [exact Hjoin|]. split.
  - rewrite Hst2, terminalName_eqb. intros Hterm. rewrite Hterm in Hacd.
    congruence.
  - exists r. split; [exact Hr|]. rewrite <- Hchanged. exact Hlt.
Qed.

(** X5. Moving a deal that already has a close date, to any stage, leaves it
    outside the read side: no later call of [getRottenDeals] returns it and
    no forecast selects it. *)
Theorem reopened_deal_stays_hidden (now : Timestamp) (s s' : Store)
    (dealId stageId : string) (reason : option string) (d d' : Deal.t) :
  moveDealToStage now s dealId stageId reason = Ok (s', d') →
  deals s !! dealId = Some d →
  is_Some (Deal.actualCloseDate d) →
  (∀ t owner dw, dw ∈ getRottenDeals t s' owner → dw.1 ≠ d')
  ∧ (∀ getPeriodDates period options fd,
       fd ∈ selectDeals getPeriodDates s' period options →
       ForecastDeal.deal fd ≠ d').
Proof.
  intros Hm Hd Hclosed.
  destruct (moveDealToStage_inv _ _ _ _ _ _ _ Hm)
    as (d0 & st & Hd0 & _ & _ & _ & _ & _ & _ & _ & _ & Hacd).
  assert (d0 = d) as -> by congruence.
  assert (Deal.actualCloseDate d' ≠ None) as Hsome.
  { rewrite Hacd. destruct (_ || _); [done|]. by destruct Hclosed as [? ->]. }
  split.
  - intros t owner dw Hin Heq. apply getRottenDeals_spec in Hin
      as (_ & _ & _ & [Hopen _] & _). congruence.
  - intros gpd period options fd Hin Heq. apply selectDeals_spec in Hin
      as (_ & _ & _ & Hopen & _). congruence.
Qed.

Lemma moved_deal_rotten_only_after_threshold_witness :
  moveDealToStage 7 Scenario.pipeline "d2" "s2" None
  = Ok (Examples.afterMove.1, Examples.afterMove.2)
  ∧ (Examples.afterMove.2, Scenario.proposal)
    ∈ getRottenDeals (7 + 20 * msPerDay) Examples.afterMove.1 None
  ∧ ∃ r, PipelineStage.rottenDays Scenario.proposal = Some r
         ∧ r < daysBetween (7 + 20 * msPerDay) 7.
Proof.
  assert (moveDealToStage 7 Scenario.pipeline "d2" "s2" None
          = Ok (Examples.afterMove.1, Examples.afterMove.2)) as Hm
    by (vm_compute; reflexivity).
  assert ((Examples.afterMove.2, Scenario.proposal)
          ∈ getRottenDeals (7 + 20 * msPerDay) Examples.afterMove.1 None)
    as Hin by (vm_compute; left).
  split; [exact Hm|]. split; [exact Hin|].
  destruct (moved_deal_rotten_only_after_threshold 7 (7 + 20 * msPerDay)
              Scenario.pipeline Examples.afterMove.1 "d2" "s2" None None
              Examples.afterMove.2 (Examples.afterMove.2, Scenario.proposal)
              Hm Hin eq_refl) as (_ & _ & Hr).
  exact Hr.
Defined.

Lemma reopened_deal_stays_hidden_witness :
  moveDealToStage 9 Scenario.repeated "d9" "a1" None
  = Ok (Examples.afterReopen.1, Examples.afterReopen.2)
  ∧ deals Scenario.repeated !! "d9" = Some Scenario.closedDeal
  ∧ is_Some (Deal.actualCloseDate Scenario.closedDeal)
  ∧ ∀ t owner dw,
      dw ∈ getRottenDeals t Examples.afterReopen.1 owner →
      dw.1 ≠ Examples.afterReopen.2.
Proof.
  assert (moveDealToStage 9 Scenario.repeated "d9" "a1" None
          = Ok (Examples.afterReopen.1, Examples.afterReopen.2)) as Hm
    by (vm_compute; reflexivity).
  assert (is_Some (Deal.actualCloseDate Scenario.closedDeal)) as Hclosed
    by (eexists; reflexivity).
  split; [exact Hm|]. split; [reflexivity|]. split; [exact Hclosed|].
  exact (proj1 (reopened_deal_stays_hidden 9 Scenario.repeated
                  Examples.afterReopen.1 "d9" "a1" None Scenario.closedDeal
                  Examples.afterReopen.2 Hm eq_refl Hclosed)).
Defined.

End StageMoveProperties.

(** ** Value recalculation: consistency, frame and arithmetic *)

Section DealValueProperties.
Import DealService.















End DealValueProperties.

(** ** Rotten deals: time and owner filter *)

Section RottenDealsProperties.
Import DealService.

Lemma daysBetween_mono t t' x : t ≤ t' → daysBetween t x ≤ daysBetween t' x.
Proof.
  intros Ht. unfold daysBetween. apply Z.div_le_mono; [done | lia].
Qed.

(** X10. Rottenness is permanent while nothing is written: a deal returned by
    [getRottenDeals] at some instant is returned at every later instant. *)
Theorem getRottenDeals_monotone_in_time (t t' : Timestamp) (s : Store)
    (ownerId : option string) (dw : DealWithStage) :
  t ≤ t' →
  dw ∈ getRottenDeals t s ownerId →
  dw ∈ getRottenDeals t' s ownerId.
Proof.
  intros Ht. rewrite !getRottenDeals_spec.
  intros (Hk & Hst & Hown & [Hopen (r & Hr & Hlt)] & Hnz).
  do 3 (split; [done|]). split; [|done].
  split; [done|]. exists r. split; [done|].
  pose proof (daysBetween_mono t t' (Deal.stageChangedAt dw.1) Ht). lia.
Qed.

Lemma getRottenDeals_monotone_in_time_witness :
  20 * msPerDay ≤ 45 * msPerDay
  ∧ (Scenario.openDeal, Scenario.proposal)
    ∈ getRottenDeals (20 * msPerDay) Scenario.pipeline None
  ∧ (Scenario.openDeal, Scenario.proposal)
    ∈ getRottenDeals (45 * msPerDay) Scenario.pipeline None.
Proof.
  assert (20 * msPerDay ≤ 45 * msPerDay) as Ht by (vm_compute; discriminate).
  assert ((Scenario.openDeal, Scenario.proposal)
          ∈ getRottenDeals (20 * msPerDay) Scenario.pipeline None) as Hin
    by (vm_compute; left).
  split; [exact Ht|]. split; [exact Hin|].
  exact (getRottenDeals_monotone_in_time _ _ _ _ _ Ht Hin).
Defined.

(** X11. The owner argument only narrows the result: with a non-empty owner id
    the result is the unfiltered result restricted to that owner's deals,
    and the empty string is treated like no owner at all. *)
Theorem getRottenDeals_owner_filter (now : Timestamp) (s : Store)
    (owner : string) (dw : DealWithStage) :
  dw ∈ getRottenDeals now s (Some owner)
  ↔ dw ∈ getRottenDeals now s None
    ∧ (owner = "" ∨ Deal.ownerId dw.1 = owner).
Proof.
  rewrite !getRottenDeals_spec. unfold optionalFilter, truthy.
  destruct (String.eqb_spec owner "") as [->|Hne]; simpl.
  - intuition.
  - rewrite bool_decide_eq_true. split.
    + intros (? & ? & [= ?] & ? & ?). intuition.
    + intros ((? & ? & _ & ? & ?) & [?|?]); [done|]. subst. intuition.
Qed.

End RottenDealsProperties.

(** ** Stage order *)

Section StageOrderProperties.
Import ForecastingService.

Lemma bySortOrder_total : Total bySortOrder.
Proof. intros a b. unfold bySortOrder. lia. Qed.

Lemma bySortOrder_trans : Transitive bySortOrder.
Proof. intros a b c. unfold bySortOrder. lia. Qed.

#[local] Existing Instance bySortOrder_total.
#[local] Existing Instance bySortOrder_trans.

Lemma elem_of_stagesOf s pipelineId st :
  st ∈ stagesOf s pipelineId
  ↔ (∃ k, pipelineStages s !! k = Some st)
    ∧ PipelineStage.pipelineId st = pipelineId.
Proof.
  unfold stagesOf. rewrite merge_sort_Permutation, elem_of_List_filter.
  by rewrite elem_of_findMany, String.eqb_eq.
Qed.



End StageOrderProperties.

(** ** Forecast buckets *)

Section ForecastBucketProperties.
Import ForecastingService.













End ForecastBucketProperties.

(** ** Confidence over time *)

Section ConfidenceDecayProperties.
Import ForecastingService.

Lemma dealConfidence_antitone p days1 days2 :
  0 ≤ p → days1 ≤ days2 →
  (dealConfidence p days2 <= dealConfidence p days1)%Q.
Proof.
  intros Hp Hdays. rewrite Zle_Qle in Hp. change (inject_Z 0) with 0%Q in Hp.
  unfold dealConfidence. set (q := inject_Z p) in *.
  destruct (Z.ltb_spec 7 days1), (Z.ltb_spec 14 days1), (Z.ltb_spec 30 days1),
    (Z.leb_spec days1 2); try lia;
    destruct (Z.ltb_spec 7 days2), (Z.ltb_spec 14 days2),
      (Z.ltb_spec 30 days2), (Z.leb_spec days2 2); try lia; lra.
Qed.

Lemma confidenceContribution_antitone now now' d :
  0 ≤ Deal.probability d → now ≤ now' →
  (confidenceContribution now' d <= confidenceContribution now d)%Q.
Proof.
  intros Hp Hnow. unfold confidenceContribution.
  apply Q.min_le_compat_r, dealConfidence_antitone; [done|].
  unfold daysBetween. apply Z.div_le_mono; [done | lia].
Qed.

Lemma confidenceScore_antitone now now' deals acc acc' :
  Forall (λ d, 0 ≤ Deal.probability d) deals → now ≤ now' →
  (acc' <= acc)%Q →
  (fold_left (λ score d, score + confidenceContribution now' d) deals acc'
   <= fold_left (λ score d, score + confidenceContribution now d) deals acc)%Q.
Proof.
  intros Hall Hnow. revert acc acc'.
  induction Hall as [|d deals Hd _ IH]; intros acc acc' Hacc; simpl; [done|].
  apply IH. pose proof (confidenceContribution_antitone now now' d Hd Hnow).
  lra.
Qed.

(** X15. While the deals are not written to, the confidence score computed from
    them cannot rise as time passes: for deals with non-negative
    probabilities the score at a later instant is at most the score at an
    earlier one. *)
Theorem calculateConfidence_never_rises (now now' : Timestamp)
    (deals : list Deal.t) :
  Forall (λ d, 0 ≤ Deal.probability d) deals →
  now ≤ now' →
  calculateConfidence now' deals ≤ calculateConfidence now deals.
Proof.
  intros Hall Hnow. unfold calculateConfidence.
  case_bool_decide as Hlen; [done|]. unfold Math_round.
  apply Qfloor_resp_le, Qplus_le_l. unfold Qdiv.
  apply Qmult_le_compat_r.
  - apply confidenceScore_antitone; [done..|lra].
  - apply Qinv_le_0_compat. change 0%Q with (inject_Z 0).
    rewrite <- Zle_Qle. lia.
Qed.

Lemma calculateConfidence_never_rises_witness :
  Forall (λ d, 0 ≤ Deal.probability d) [Scenario.staleDeal; Scenario.openDeal]
  ∧ 1 * msPerDay ≤ 20 * msPerDay
  ∧ calculateConfidence (1 * msPerDay) [Scenario.staleDeal; Scenario.openDeal]
    = 55
  ∧ calculateConfidence (20 * msPerDay) [Scenario.staleDeal; Scenario.openDeal]
    ≤ 55.
Proof.
  assert (Forall (λ d, 0 ≤ Deal.probability d)
            [Scenario.staleDeal; Scenario.openDeal]) as Hall
    by (repeat constructor; vm_compute; discriminate).
  assert (1 * msPerDay ≤ 20 * msPerDay) as Hnow by (vm_compute; discriminate).
  split; [exact Hall|]. split; [exact Hnow|].
  assert (calculateConfidence (1 * msPerDay)
            [Scenario.staleDeal; Scenario.openDeal] = 55) as H55
    by (vm_compute; reflexivity).
  split; [exact H55|]. rewrite <- H55.
  exact (calculateConfidence_never_rises _ _ _ Hall Hnow).
Defined.

End ConfidenceDecayProperties.

(** ** Conversion rates: range *)

Section ConversionRangeProperties.
Import ForecastingService.

Variable passed : DealWithStage → string → bool.
Variable oneYearBefore : Timestamp → Timestamp.

Lemma filter_length_le {A} (f g : A → bool) (l : list A) :
  (∀ x, x ∈ l → f x = true → g x = true) →
  (length (List.filter f l) ≤ length (List.filter g l))%nat.
Proof.
  induction l as [|x l IH]; intros Himp; simpl; [done|].
  assert (length (List.filter f l) ≤ length (List.filter g l))%nat as Hle.
  { apply IH. intros y Hy. apply Himp. by right. }
  destruct (f x) eqn:Hf.
  - rewrite (Himp x) by (done || by left). simpl. lia.
  - destruct (g x); simpl; lia.
Qed.

Lemma rate_nonneg (n c : nat) :
  (0 <= inject_Z (Z.of_nat n) / inject_Z (Z.of_nat c) * 100)%Q.
Proof.
  apply Qmult_le_0_compat; [|done]. unfold Qdiv.
  apply Qmult_le_0_compat.
  - change 0%Q with (inject_Z 0). rewrite <- Zle_Qle. lia.
  - apply Qinv_le_0_compat. change 0%Q with (inject_Z 0).
    rewrite <- Zle_Qle. lia.
Qed.

Lemma rate_le_100 (n c : nat) :
  (0 < c)%nat → (n ≤ c)%nat →
  (inject_Z (Z.of_nat n) / inject_Z (Z.of_nat c) * 100 <= 100)%Q.
Proof.
  intros Hc Hn.
  assert (0 < inject_Z (Z.of_nat c))%Q as Hc'.
  { change 0%Q with (inject_Z 0). rewrite <- Zlt_Qlt. lia. }
  assert (inject_Z (Z.of_nat n) <= inject_Z (Z.of_nat c))%Q as Hn'.
  { rewrite <- Zle_Qle. lia. }
  assert (inject_Z (Z.of_nat n) / inject_Z (Z.of_nat c) <= 1)%Q as Hq.
  { apply Qle_shift_div_r; [done|]. lra. }
  set (q := (inject_Z (Z.of_nat n) / inject_Z (Z.of_nat c))%Q) in *. lra.
Qed.

(** X16. A pipeline with fewer than two stages has no conversion rates; every
    rate reported is non-negative; and when every closed deal that passed
    through the later stage of an adjacent pair also passed through the
    earlier one, every rate is at most 100. *)
Theorem getConversionRates_range (now : Timestamp) (s : Store)
    (pipelineId : string) :
  let deals := closedDeals oneYearBefore now s pipelineId in
  let stages := stagesOf s pipelineId in
  let rates := getConversionRates passed oneYearBefore now s pipelineId in
  ((length stages < 2)%nat → rates = ∅)
  ∧ (∀ key e, rates !! key = Some e → (0 <= ConversionRate.rate e)%Q)
  ∧ ((∀ pair d, pair ∈ adjacentPairs stages → d ∈ deals →
        passed d (PipelineStage.id pair.2) = true →
        passed d (PipelineStage.id pair.1) = true) →
     ∀ key e, rates !! key = Some e → (ConversionRate.rate e <= 100)%Q).
Proof.
  intros deals stages rates. subst rates.
  rewrite (getConversionRates_writes passed oneYearBefore).
  fold deals. fold stages. split; [|split].
  - intros Hlen. destruct stages as [|st1 [|st2 rest]]; simpl in *;
      [done | done | lia].
  - intros key e Hl. apply elem_of_list_to_map_2 in Hl.
    rewrite elem_of_reverse in Hl. unfold writes in Hl.
    apply list_elem_of_fmap in Hl as (pair & [= -> ->] & _).
    unfold conversionEntry. cbn [ConversionRate.rate].
    case_bool_decide; [apply rate_nonneg | done].
  - intros Hfunnel key e Hl. apply elem_of_list_to_map_2 in Hl.
    rewrite elem_of_reverse in Hl. unfold writes in Hl.
    apply list_elem_of_fmap in Hl as (pair & [= -> ->] & Hin).
    unfold conversionEntry. cbn [ConversionRate.rate].
    case_bool_decide as Hpos; [|done].
    apply rate_le_100; [done|]. apply filter_length_le.
    intros d Hd. by apply Hfunnel.
Qed.

End ConversionRangeProperties.

Section ConversionRangeScenario.
Import ForecastingService.

Lemma getConversionRates_range_witness :
  (length (stagesOf Scenario.pipeline "nowhere") < 2)%nat
  ∧ getConversionRates (Scenario.reached Scenario.repeated) Scenario.yearBefore
      (400 * msPerDay) Scenario.pipeline "nowhere" = ∅
  ∧ ∃ e,
      getConversionRates (Scenario.reached Scenario.repeated)
        Scenario.yearBefore (400 * msPerDay) Scenario.repeated "p9"
      !! "A_to_A" = Some e
      ∧ (0 <= ConversionRate.rate e <= 100)%Q.
Proof.
  assert (length (stagesOf Scenario.pipeline "nowhere") < 2)%nat as Hlen
    by (vm_compute; lia).
  split; [exact Hlen|]. split.
  - destruct (getConversionRates_range (Scenario.reached Scenario.repeated)
                Scenario.yearBefore (400 * msPerDay) Scenario.pipeline
                "nowhere") as (Hfew & _).
    exact (Hfew Hlen).
  - destruct (getConversionRates_range (Scenario.reached Scenario.repeated)
                Scenario.yearBefore (400 * msPerDay) Scenario.repeated "p9")
      as (_ & Hlow & Hhigh).
    destruct (getConversionRates (Scenario.reached Scenario.repeated)
                Scenario.yearBefore (400 * msPerDay) Scenario.repeated "p9"
              !! "A_to_A") as [e|] eqn:Hl; [|vm_compute in Hl; discriminate Hl].
    exists e. split; [reflexivity|]. split; [exact (Hlow _ _ Hl)|].
    apply (Hhigh) with (key := "A_to_A"); [|exact Hl].
    intros pair d Hpair Hd.
    assert (adjacentPairs (stagesOf Scenario.repeated "p9")
            = [(Scenario.a1, Scenario.a2); (Scenario.a2, Scenario.a3)])
      as Hpairs by (vm_compute; reflexivity).
    assert (closedDeals Scenario.yearBefore (400 * msPerDay) Scenario.repeated
              "p9" = [(Scenario.closedDeal, Scenario.a2)]) as Hdeals
      by (vm_compute; reflexivity).
    rewrite Hpairs in Hpair. rewrite Hdeals in Hd.
    apply list_elem_of_singleton in Hd as ->.
    apply elem_of_cons in Hpair as [->|Hpair];
      [|apply list_elem_of_singleton in Hpair as ->];
      vm_compute; congruence.
Defined.

End ConversionRangeScenario.

(** ** Lifecycle progression: direction, frame and next actions *)

Section LifecycleMoreProperties.
Import ContactLifecycleService.

Lemma progressLifecycleStage_inv now s s' contactId t reason c' :
  progressLifecycleStage now s contactId t reason = Ok (s', c') →
  ∃ c,
    contacts s !! contactId = Some c
    ∧ isValidProgression (Contact.lifecycleStage c) t = true
    ∧ c' = Contact.mk (Contact.id c) (mapLifecycleToStatus t) t
             (Contact.lastContactedAt c) (Contact.deals c) now
    ∧ contacts s' = <[contactId := c']> (contacts s)
    ∧ deals s' = deals s
    ∧ pipelineStages s' = pipelineStages s
    ∧ users s' = users s
    ∧ dealProducts s' = dealProducts s
    ∧ activities s'
      = activities s
        ++ [LIFECYCLE_CHANGE contactId (Contact.lifecycleStage c) t reason].
Proof.
  unfold progressLifecycleStage.
  destruct (contacts s !! contactId) as [c|] eqn:Hc; simpl; [|discriminate].
  destruct (isValidProgression (Contact.lifecycleStage c) t) eqn:Hv; simpl;
    [|discriminate].
  intros [= <- <-]. exists c. done.
Qed.

(** X17. Progression has a direction. A successful [progress] never keeps the
    stage it started from, never enters SUBSCRIBER, never starts from
    EVANGELIST, and from CUSTOMER it can only lead to EVANGELIST: a contact
    that became a customer does not fall back to a lead. *)
Theorem progress_has_direction (now : Timestamp) (s s' : Store)
    (contactId : string) (t : LifecycleStage) (reason : option string)
    (c' : Contact.t) :
  progressLifecycleStage now s contactId t reason = Ok (s', c') →
  ∃ c,
    contacts s !! contactId = Some c
    ∧ Contact.lifecycleStage c' = t
    ∧ t ≠ Contact.lifecycleStage c
    ∧ t ≠ SUBSCRIBER
    ∧ Contact.lifecycleStage c ≠ EVANGELIST
    ∧ (Contact.lifecycleStage c = CUSTOMER → t = EVANGELIST).
Proof.
  intros Hp.
  destruct (progressLifecycleStage_inv _ _ _ _ _ _ _ Hp)
    as (c & Hc & Hv & -> & _).
  exists c. split; [done|]. split; [done|].
  destruct (Contact.lifecycleStage c), t; simpl in Hv;
    try discriminate Hv; repeat split; congruence.
Qed.

Lemma progress_has_direction_witness :
  ∃ s' c',
    progressLifecycleStage 5 Scenario.crm "c2" EVANGELIST None = Ok (s', c')
    ∧ Contact.lifecycleStage c' = EVANGELIST.
Proof.
  destruct (progressLifecycleStage 5 Scenario.crm "c2" EVANGELIST None)
    as [[s' c']|e] eqn:Hp; [|vm_compute in Hp; discriminate Hp].
  exists s', c'. split; [reflexivity|].
  destruct (progress_has_direction 5 Scenario.crm s' "c2" EVANGELIST None c' Hp)
    as (c & _ & Hstage & _).
  exact Hstage.
Defined.

(** X18. [progress] fails exactly for an unknown contact or a missing edge, the
    unknown contact being reported first. When it succeeds, only that
    contact's row and the log change: the row keeps its id, last contact
    time and deals, its status becomes the one mapped from the new stage
    (hence never INACTIVE or UNQUALIFIED), every other contact and all
    deals, stages and line items stay, and one LIFECYCLE_CHANGE activity
    with the previous and the new stage is appended. *)
Theorem progress_frame (now : Timestamp) (s : Store) (contactId : string)
    (t : LifecycleStage) (reason : option string) :
  (∀ e, progressLifecycleStage now s contactId t reason = Err e
        ↔ (contacts s !! contactId = None ∧ e = NOT_FOUND "Contact")
          ∨ ∃ c, contacts s !! contactId = Some c
                 ∧ ¬ progression_edge (Contact.lifecycleStage c) t
                 ∧ e = INVALID_PROGRESSION
                         (LifecycleStage_toString (Contact.lifecycleStage c))
                         (LifecycleStage_toString t))
  ∧ ∀ s' c',
      progressLifecycleStage now s contactId t reason = Ok (s', c') →
      (∀ k, k ≠ contactId → contacts s' !! k = contacts s !! k)
      ∧ deals s' = deals s
      ∧ pipelineStages s' = pipelineStages s
      ∧ dealProducts s' = dealProducts s
      ∧ Contact.status c' ≠ ContactStatus.INACTIVE
      ∧ Contact.status c' ≠ ContactStatus.UNQUALIFIED
      ∧ ∃ c,
          contacts s !! contactId = Some c
          ∧ contacts s' !! contactId = Some c'
          ∧ Contact.id c' = Contact.id c
          ∧ Contact.lastContactedAt c' = Contact.lastContactedAt c
          ∧ Contact.deals c' = Contact.deals c
          ∧ Contact.updatedAt c' = now
          ∧ activities s'
            = activities s
              ++ [LIFECYCLE_CHANGE contactId (Contact.lifecycleStage c) t
                    reason].
Proof.
  split.
  - intros e. unfold progressLifecycleStage.
    destruct (contacts s !! contactId) as [c|] eqn:Hc; simpl.
    + destruct (isValidProgression (Contact.lifecycleStage c) t) eqn:Hv; simpl.
      * apply isValidProgression_edge in Hv. split; [discriminate|].
        intros [[? _]|(c0 & [= <-] & Hn & _)]; [discriminate | done].
      * split.
        -- intros [= <-]. right. exists c. split; [done|]. split; [|done].
           intros He. apply isValidProgression_edge in He. congruence.
        -- intros [[? _]|(c0 & [= <-] & _ & ->)]; [discriminate | done].
    + split.
      * intros [= <-]. by left.
      * intros [[_ ->]|(c0 & ? & _)]; [done | discriminate].
  - intros s' c' Hp.
    destruct (progressLifecycleStage_inv _ _ _ _ _ _ _ Hp)
      as (c & Hc & _ & Hc' & Hcontacts & Hdeals & Hstages & _ & Hproducts
          & Hlog).
    split; [intros k Hk; by rewrite Hcontacts, lookup_insert_ne|].
    do 3 (split; [done|]).
    split; [rewrite Hc'; by destruct t|]. split; [rewrite Hc'; by destruct t|].
    exists c. rewrite Hcontacts, lookup_insert_eq, Hlog, Hc'. done.
Qed.

Lemma progress_frame_witness :
  ∃ s' c',
    progressLifecycleStage 5 Scenario.crm "c1" SALES_QUALIFIED None
    = Ok (s', c')
    ∧ contacts s' !! "c2" = contacts Scenario.crm !! "c2"
    ∧ deals s' = deals Scenario.crm.
Proof.
  destruct (progressLifecycleStage 5 Scenario.crm "c1" SALES_QUALIFIED None)
    as [[s' c']|e] eqn:Hp; [|vm_compute in Hp; discriminate Hp].
  exists s', c'. split; [reflexivity|].
  destruct (progress_frame 5 Scenario.crm "c1" SALES_QUALIFIED None)
    as [_ Hok].
  destruct (Hok s' c' Hp) as (Hother & Hdeals & _).
  split; [apply Hother; discriminate | exact Hdeals].
Defined.



End LifecycleMoreProperties.

(** ** Lead scoring *)

Section LeadScoreProperties.
Import ContactService.








End LeadScoreProperties.

(** ** Pipeline metrics *)

Section PipelineMetricsProperties.
Import PipelineService ForecastingService.

Lemma totalDays_bounds now deals lo hi acc :
  Forall (λ d : DealWithStage,
            lo ≤ daysBetween now (Deal.stageChangedAt d.1) ≤ hi) deals →
  acc + lo * Z.of_nat (length deals)
  ≤ fold_left (λ sum deal, sum + daysBetween now (Deal.stageChangedAt deal.1))
      deals acc
  ≤ acc + hi * Z.of_nat (length deals).
Proof.
  intros Hall. revert acc.
  induction Hall as [|d deals Hd _ IH]; intros acc.
  - simpl. lia.
  - cbn [fold_left length]. specialize (IH (acc + daysBetween now
      (Deal.stageChangedAt d.1))). lia.
Qed.

Lemma Math_round_between (x : Q) (lo hi : Z) :
  (inject_Z lo <= x <= inject_Z hi)%Q → lo ≤ Math_round x ≤ hi.
Proof.
  intros [Hlo Hhi]. unfold Math_round. split.
  - rewrite <- (Qfloor_Z lo). apply Qfloor_resp_le. lra.
  - pose proof (Qfloor_le (x + (1 # 2))) as Hfl.
    assert (inject_Z (Qfloor (x + (1 # 2))) < inject_Z (hi + 1))%Q as Hlt.
    { rewrite inject_Z_plus. change (inject_Z 1) with 1%Q. lra. }
    rewrite <- Zlt_Qlt in Hlt. lia.
Qed.

(** X22. The average stage age of no deals is 0, and the average over a
    non-empty list of deals lies between the least and the greatest age in
    the list. *)
Theorem calculateAverageStageAge_between (now : Timestamp)
    (deals : list DealWithStage) (lo hi : Z) :
  calculateAverageStageAge now [] = 0
  ∧ (deals ≠ [] →
     Forall (λ d : DealWithStage,
               lo ≤ daysBetween now (Deal.stageChangedAt d.1) ≤ hi) deals →
     lo ≤ calculateAverageStageAge now deals ≤ hi).
Proof.
  split; [reflexivity|]. intros Hne Hall. unfold calculateAverageStageAge.
  case_bool_decide as Hlen; [by destruct deals|].
  pose proof (totalDays_bounds now deals lo hi 0 Hall) as [Hlo Hhi].
  set (total :=
         fold_left
           (λ sum (deal : DealWithStage),
              sum + daysBetween now (Deal.stageChangedAt deal.1)) deals 0) in *.
  set (n := Z.of_nat (length deals)) in *.
  assert (0 < n) as Hn by (subst n; lia).
  assert (0 < inject_Z n)%Q as Hn'
    by (change 0%Q with (inject_Z 0); by rewrite <- Zlt_Qlt).
  apply Math_round_between. split.
  - apply Qle_shift_div_l; [done|]. rewrite <- inject_Z_mult, <- Zle_Qle. lia.
  - apply Qle_shift_div_r; [done|]. rewrite <- inject_Z_mult, <- Zle_Qle. lia.
Qed.

Lemma calculateAverageStageAge_between_witness :
  [(Scenario.staleDeal, Scenario.qualified);
   (Scenario.closedDeal, Scenario.a2)] ≠ []
  ∧ Forall (λ d : DealWithStage,
              20 ≤ daysBetween (400 * msPerDay) (Deal.stageChangedAt d.1)
              ≤ 400)
      [(Scenario.staleDeal, Scenario.qualified);
       (Scenario.closedDeal, Scenario.a2)]
  ∧ 20 ≤ calculateAverageStageAge (400 * msPerDay)
           [(Scenario.staleDeal, Scenario.qualified);
            (Scenario.closedDeal, Scenario.a2)] ≤ 400.
Proof.
  assert ([(Scenario.staleDeal, Scenario.qualified);
           (Scenario.closedDeal, Scenario.a2)] ≠ []) as Hne by discriminate.
  assert (Forall (λ d : DealWithStage,
                    20 ≤ daysBetween (400 * msPerDay)
                           (Deal.stageChangedAt d.1) ≤ 400)
            [(Scenario.staleDeal, Scenario.qualified);
             (Scenario.closedDeal, Scenario.a2)]) as Hall
    by (repeat constructor; vm_compute; discriminate).
  split; [exact Hne|]. split; [exact Hall|].
  destruct (calculateAverageStageAge_between (400 * msPerDay)
              [(Scenario.staleDeal, Scenario.qualified);
               (Scenario.closedDeal, Scenario.a2)] 20 400) as [_ Hbetween].
  exact (Hbetween Hne Hall).
Defined.

Lemma fold_insert_list_to_map {A B} (key : A → string) (val : A → B)
    (l : list A) (acc : gmap string B) :
  fold_left (λ m x, <[key x := val x]> m) l acc
  = list_to_map (reverse ((λ x, (key x, val x)) <$> l)) ∪ acc.
Proof.
  revert acc. induction l as [|x l IH]; intros acc.
  - simpl. by rewrite (left_id ∅ (∪)).
  - cbn [fold_left]. rewrite IH, fmap_cons, reverse_cons, list_to_map_app.
    simpl.
    by rewrite insert_empty, <- (assoc_L (∪)), <- insert_union_singleton_l.
Qed.

Lemma sumValues_sum deals :
  sumValues deals == sumQ (map (λ d : DealWithStage, Deal.value d.1) deals).
Proof.
  unfold sumValues.
  assert (∀ acc,
    fold_left (λ sum (deal : DealWithStage), sum + Deal.value deal.1)%Q
      deals acc
    == acc + sumQ (map (λ d : DealWithStage, Deal.value d.1) deals)) as Hgen.
  { induction deals as [|d deals IH]; intros acc; simpl; [ring|].
    rewrite IH. ring. }
  rewrite Hgen. ring.
Qed.

(** X23. [getPipelineMetrics] fails exactly for an unknown pipeline. Otherwise it
    counts the open deals of the pipeline and sums their values, reports an
    average deal size that multiplied by the count gives back the total
    (0 without deals), and has an entry for the id of every stage of the
    pipeline; the entry of a stage id counts and sums the open deals of the
    pipeline that sit in that stage, so never more than the total count. *)
Theorem getPipelineMetrics_entries (now : Timestamp)
    (pipelines : gmap string Pipeline.t) (s : Store) (pipelineId : string) :
  let deals := openDealsOf s pipelineId in
  let inStage (stageId : string) :=
    List.filter (λ d : DealWithStage, String.eqb (Deal.stageId d.1) stageId)
                deals in
  (∀ e, getPipelineMetrics now pipelines s pipelineId = Err e
        ↔ pipelines !! pipelineId = None ∧ e = NOT_FOUND "Pipeline")
  ∧ ∀ m,
      getPipelineMetrics now pipelines s pipelineId = Ok m →
      PipelineMetrics.totalDeals m = length deals
      ∧ PipelineMetrics.totalValue m
        == sumQ (map (λ d : DealWithStage, Deal.value d.1) deals)
      ∧ PipelineMetrics.averageDealSize m
        * inject_Z (Z.of_nat (PipelineMetrics.totalDeals m))
        == PipelineMetrics.totalValue m
      ∧ (∀ st, st ∈ stagesOf s pipelineId →
           is_Some (PipelineMetrics.stageMetrics m !! PipelineStage.id st))
      ∧ ∀ stageId entry,
          PipelineMetrics.stageMetrics m !! stageId = Some entry →
          (∃ st, st ∈ stagesOf s pipelineId
                 ∧ PipelineStage.id st = stageId
                 ∧ StageAgeMetrics.name entry = PipelineStage.name st)
          ∧ StageAgeMetrics.dealCount entry = length (inStage stageId)
          ∧ (StageAgeMetrics.dealCount entry ≤ PipelineMetrics.totalDeals m)%nat
          ∧ StageAgeMetrics.totalValue entry
            == sumQ (map (λ d : DealWithStage, Deal.value d.1)
                         (inStage stageId)).
Proof.
  intros deals inStage. unfold getPipelineMetrics.
  destruct (pipelines !! pipelineId) as [pipeline|]; simpl.
  - split; [intros e; split; [discriminate | intros [? _]; discriminate]|].
    intros m [= <-]. cbn [PipelineMetrics.totalDeals PipelineMetrics.totalValue
      PipelineMetrics.averageDealSize PipelineMetrics.stageMetrics].
    fold deals. split; [done|]. split; [apply sumValues_sum|]. split.
    { case_bool_decide as Hpos.
      - field. change 0%Q with (inject_Z 0). rewrite inject_Z_injective. lia.
      - assert (length deals = 0%nat) as Hz by lia.
        destruct deals; [|done]. reflexivity. }
    rewrite (fold_insert_list_to_map PipelineStage.id (stageEntry now deals)).
    setoid_rewrite (map_union_empty (A := StageAgeMetrics.t)).
    split.
    + intros st Hst. apply not_eq_None_Some. intros Hnone.
      apply not_elem_of_list_to_map in Hnone. apply Hnone.
      rewrite fmap_reverse, elem_of_reverse, <- list_fmap_compose.
      apply list_elem_of_fmap. by exists st.
    + intros stageId entry Hl. apply elem_of_list_to_map_2 in Hl.
      rewrite elem_of_reverse in Hl.
      apply list_elem_of_fmap in Hl as (st & [= -> ->] & Hst).
      unfold stageEntry. cbn [StageAgeMetrics.name StageAgeMetrics.dealCount
        StageAgeMetrics.totalValue].
      split; [by exists st|]. split; [done|]. split.
      * unfold inStage. clear. induction deals as [|d l IH]; simpl; [done|].
        destruct (String.eqb _ _); simpl; lia.
      * apply sumValues_sum.
  - split; [|discriminate]. intros e. split.
    + by intros [= <-].
    + by intros [_ ->].
Qed.

Lemma getPipelineMetrics_entries_witness :
  ∃ m,
    getPipelineMetrics (400 * msPerDay) Examples.pipelines Scenario.pipeline
      "p1" = Ok m
    ∧ PipelineMetrics.totalDeals m = 2%nat
    ∧ PipelineMetrics.averageDealSize m * inject_Z 2
      == PipelineMetrics.totalValue m.
Proof.
  destruct (getPipelineMetrics (400 * msPerDay) Examples.pipelines
              Scenario.pipeline "p1") as [m|e] eqn:Hm;
    [|vm_compute in Hm; discriminate Hm].
  exists m. split; [reflexivity|].
  destruct (getPipelineMetrics_entries (400 * msPerDay) Examples.pipelines
              Scenario.pipeline "p1") as [_ Hok].
  destruct (Hok m Hm) as (Hcount & _ & Havg & _).
  assert (PipelineMetrics.totalDeals m = 2%nat) as H2
    by (rewrite Hcount; vm_compute; reflexivity).
  split; [exact H2|]. rewrite H2 in Havg. exact Havg.
Defined.

End PipelineMetricsProperties.

(** ** The stage route *)

Section RouteProperties.
Import DealService.
Context {Session : Type}.




End RouteProperties.

Section RouteScenario.


End RouteScenario.

(** ** The board *)

Section BoardProperties.
Import DealService PipelineService ForecastingService.
Variable priority : Deal.t → Z.

Lemma boardOrder_total : Total (DealBoard.boardOrder priority).
Proof. intros a b. unfold DealBoard.boardOrder. lia. Qed.

Lemma boardOrder_trans : Transitive (DealBoard.boardOrder priority).
Proof. intros a b c. unfold DealBoard.boardOrder. lia. Qed.

#[local] Existing Instance boardOrder_total.
#[local] Existing Instance boardOrder_trans.

Lemma StronglySorted_List_filter {A} (R : relation A) (f : A → bool) l :
  StronglySorted R l → StronglySorted R (List.filter f l).
Proof.
  induction 1 as [|x l _ IH Hall]; simpl; [constructor|].
  destruct (f x); [|done]. constructor; [done|].
  rewrite Forall_forall in *. intros y Hy.
  apply elem_of_List_filter in Hy as [Hy _]. by apply Hall.
Qed.

Lemma elem_of_openDealsOf s pipelineId (dw : DealWithStage) :
  dw ∈ openDealsOf s pipelineId
  ↔ (∃ k, deals s !! k = Some dw.1)
    ∧ pipelineStages s !! Deal.stageId dw.1 = Some dw.2
    ∧ Deal.pipelineId dw.1 = pipelineId
    ∧ Deal.actualCloseDate dw.1 = None.
Proof.
  unfold openDealsOf.
  rewrite elem_of_List_filter, list_elem_of_omap, andb_true_iff,
    bool_decide_eq_true, String.eqb_eq.
  setoid_rewrite elem_of_findMany. setoid_rewrite includeStage_Some. split.
  - intros [(d & Hk & <- & Hst) [? ?]]. done.
  - intros (Hk & Hst & ? & ?). split; [|done]. by exists dw.1.
Qed.

Lemma getDealsByStage_writes s pipelineId :
  DealBoard.getDealsByStage priority s pipelineId
  = list_to_map
      (reverse
         ((λ stage,
             (PipelineStage.id stage,
              List.filter
                (λ deal : DealWithStage,
                   String.eqb (Deal.stageId deal.1) (PipelineStage.id stage))
                (merge_sort (DealBoard.boardOrder priority)
                   (openDealsOf s pipelineId))))
          <$> stagesOf s pipelineId)).
Proof.
  unfold DealBoard.getDealsByStage.
  rewrite (fold_insert_list_to_map PipelineStage.id
             (λ stage,
                List.filter
                  (λ deal : DealWithStage,
                     String.eqb (Deal.stageId deal.1) (PipelineStage.id stage))
                  (merge_sort (DealBoard.boardOrder priority)
                     (openDealsOf s pipelineId)))).
  apply (map_union_empty (A := list DealWithStage)).
Qed.

Lemma getDealsByStage_lookup s pipelineId stageId column :
  DealBoard.getDealsByStage priority s pipelineId !! stageId = Some column →
  (∃ st, st ∈ stagesOf s pipelineId ∧ PipelineStage.id st = stageId)
  ∧ column
    = List.filter
        (λ deal : DealWithStage, String.eqb (Deal.stageId deal.1) stageId)
        (merge_sort (DealBoard.boardOrder priority) (openDealsOf s pipelineId)).
Proof.
  rewrite getDealsByStage_writes. intros Hl.
  apply elem_of_list_to_map_2 in Hl. rewrite elem_of_reverse in Hl.
  apply list_elem_of_fmap in Hl as (st & [= -> ->] & Hst).
  split; [by exists st | done].
Qed.

(** X25. The board of a pipeline has one column per stage id of the pipeline.
    The column of a stage id holds exactly the open deals of the pipeline
    whose [stageId] is that id, ordered by priority, highest first, and
    then by expected close date. *)
Theorem getDealsByStage_columns (s : Store) (pipelineId : string) :
  (∀ st, st ∈ stagesOf s pipelineId →
     is_Some (DealBoard.getDealsByStage priority s pipelineId
              !! PipelineStage.id st))
  ∧ ∀ stageId column,
      DealBoard.getDealsByStage priority s pipelineId !! stageId = Some column →
      (∃ st, st ∈ stagesOf s pipelineId ∧ PipelineStage.id st = stageId)
      ∧ StronglySorted (DealBoard.boardOrder priority) column
      ∧ ∀ dw, dw ∈ column
              ↔ dw ∈ openDealsOf s pipelineId ∧ Deal.stageId dw.1 = stageId.
Proof.
  split.
  - intros st Hst. rewrite getDealsByStage_writes.
    apply not_eq_None_Some. intros Hnone.
    apply not_elem_of_list_to_map in Hnone. apply Hnone.
    rewrite fmap_reverse, elem_of_reverse, <- list_fmap_compose.
    apply list_elem_of_fmap. by exists st.
  - intros stageId column Hl.
    apply getDealsByStage_lookup in Hl as [Hst ->]. split; [done|]. split.
    + apply StronglySorted_List_filter, (StronglySorted_merge_sort _).
    + intros dw. by rewrite elem_of_List_filter, merge_sort_Permutation,
        String.eqb_eq.
Qed.

(** X26. A stage move does not check that the target stage belongs to the
    deal's pipeline, and the board does not look beyond the pipeline's own
    stages: a deal moved into a stage of another pipeline is in no column
    of the board of its pipeline any more (the stage table being keyed by
    the stage ids). *)
Theorem moved_out_of_pipeline_leaves_board (now : Timestamp) (s s' : Store)
    (dealId stageId : string) (reason : option string) (d' : Deal.t)
    (st : PipelineStage.t) :
  (∀ k row, pipelineStages s !! k = Some row → PipelineStage.id row = k) →
  moveDealToStage now s dealId stageId reason = Ok (s', d') →
  pipelineStages s !! stageId = Some st →
  PipelineStage.pipelineId st ≠ Deal.pipelineId d' →
  ∀ stageId' column dw,
    DealBoard.getDealsByStage priority s' (Deal.pipelineId d') !! stageId'
    = Some column →
    dw ∈ column →
    dw.1 ≠ d'.
Proof.
  intros Hkeyed Hm Hst Hforeign stageId' column dw Hl Hin Heq.
  destruct (moveDealToStage_inv _ _ _ _ _ _ _ Hm)
    as (d0 & st0 & _ & _ & _ & Hstages & _ & Hsid & _).
  apply getDealsByStage_lookup in Hl as [(st' & Hst' & Hid) ->].
  apply elem_of_List_filter in Hin as [_ Hcol]. apply String.eqb_eq in Hcol.
  rewrite Heq, Hsid in Hcol.
  apply elem_of_stagesOf in Hst' as [(k & Hk) Hp]. rewrite Hstages in Hk.
  pose proof (Hkeyed _ _ Hk) as Hkey.
  assert (k = stageId) as -> by congruence.
  congruence.
Qed.

End BoardProperties.

Section BoardScenario.
Import DealService PipelineService ForecastingService.

Lemma getDealsByStage_columns_witness :
  ∃ column,
    DealBoard.getDealsByStage Examples.priorityOf Scenario.pipeline "p1"
    !! "s2" = Some column
    ∧ (Scenario.openDeal, Scenario.proposal) ∈ column.
Proof.
  destruct (getDealsByStage_columns Examples.priorityOf Scenario.pipeline "p1")
    as [_ Hcolumns].
  destruct (DealBoard.getDealsByStage Examples.priorityOf Scenario.pipeline
              "p1" !! "s2") as [column|] eqn:Hl;
    [|vm_compute in Hl; discriminate Hl].
  exists column. split; [reflexivity|].
  destruct (Hcolumns "s2" column Hl) as (_ & _ & Hmem).
  apply Hmem. split; [|reflexivity]. vm_compute. right. left.
Defined.

Lemma moved_out_of_pipeline_leaves_board_witness :
  (∀ k row, pipelineStages Examples.twoPipelines !! k = Some row →
            PipelineStage.id row = k)
  ∧ moveDealToStage 7 Examples.twoPipelines "d2" "a1" None
    = Ok (Examples.afterCrossing.1, Examples.afterCrossing.2)
  ∧ pipelineStages Examples.twoPipelines !! "a1" = Some Scenario.a1
  ∧ PipelineStage.pipelineId Scenario.a1
    ≠ Deal.pipelineId Examples.afterCrossing.2
  ∧ ∀ stageId' column dw,
      DealBoard.getDealsByStage Examples.priorityOf Examples.afterCrossing.1
        (Deal.pipelineId Examples.afterCrossing.2) !! stageId' = Some column →
      dw ∈ column →
      dw.1 ≠ Examples.afterCrossing.2.
Proof.
  assert (∀ k row, pipelineStages Examples.twoPipelines !! k = Some row →
                   PipelineStage.id row = k) as Hkeyed.
  { assert (map_Forall (λ k row, PipelineStage.id row = k)
              (pipelineStages Examples.twoPipelines)) as Hall
      by (apply (bool_decide_unpack _); vm_compute; exact I).
    exact Hall. }
  assert (moveDealToStage 7 Examples.twoPipelines "d2" "a1" None
          = Ok (Examples.afterCrossing.1, Examples.afterCrossing.2)) as Hm
    by (vm_compute; reflexivity).
  assert (PipelineStage.pipelineId Scenario.a1
          ≠ Deal.pipelineId Examples.afterCrossing.2) as Hforeign
    by (vm_compute; discriminate).
  split; [exact Hkeyed|]. split; [exact Hm|]. split; [reflexivity|].
  split; [exact Hforeign|].
  exact (moved_out_of_pipeline_leaves_board Examples.priorityOf 7
           Examples.twoPipelines Examples.afterCrossing.1 "d2" "a1" None
           Examples.afterCrossing.2 Scenario.a1 Hkeyed Hm eq_refl Hforeign).
Defined.

End BoardScenario.

(** ** Merging contacts *)

Section MergeProperties.
Import ContactMerge.
Variable mergeContactData : Contact.t → list Contact.t → Contact.t.

Lemma reassignDeal_rewired now k keys to d :
  rewired now keys to (reassignDeal now k to d) = rewired now (k :: keys) to d.
Proof.
  unfold rewired, reassignDeal.
  destruct (String.eqb_spec (Deal.contactId d) k) as [Heq|Hne]; simpl.
  - rewrite (bool_decide_eq_true_2 (Deal.contactId d ∈ k :: keys))
      by (rewrite Heq; left).
    by case_bool_decide.
  - case_bool_decide as Hin.
    + by rewrite bool_decide_eq_true_2 by (by right).
    + rewrite bool_decide_eq_false_2; [done|].
      intros [?|?]%elem_of_cons; done.
Qed.

Lemma fold_reassign now to (duplicates : list (string * Contact.t)) s :
  deals (fold_left (λ s duplicate, reassign now to s duplicate) duplicates s)
  = rewired now duplicates.*1 to <$> deals s
  ∧ contacts (fold_left (λ s duplicate, reassign now to s duplicate)
                duplicates s) = contacts s.
Proof.
  revert s. induction duplicates as [|[k c] duplicates IH]; intros s.
  - simpl. split; [|done]. apply map_eq. intros i. rewrite lookup_fmap.
    destruct (deals s !! i) as [d|]; simpl; [|done].
    unfold rewired. by rewrite bool_decide_eq_false_2 by apply not_elem_of_nil.
  - cbn [fold_left]. destruct (IH (reassign now to s (k, c))) as [-> ->].
    split; [|done]. cbn [reassign deals fst fmap list_fmap].
    rewrite <- map_fmap_compose. apply map_fmap_ext. intros i d _.
    apply reassignDeal_rewired.
Qed.

Lemma elem_of_duplicate_keys (table : gmap string Contact.t)
    (duplicateIds : list string) (k : string) :
  k ∈ (List.filter (λ row : string * Contact.t,
                      bool_decide (row.1 ∈ duplicateIds))
                   (map_to_list table)).*1
  ↔ k ∈ duplicateIds ∧ is_Some (table !! k).
Proof.
  rewrite list_elem_of_fmap. split.
  - intros ([k' c] & -> & Hin). apply elem_of_List_filter in Hin as [Hin Hd].
    apply bool_decide_eq_true in Hd. apply elem_of_map_to_list in Hin.
    simpl in *. eauto.
  - intros [Hd [c Hc]]. exists (k, c). split; [done|].
    apply elem_of_List_filter. split; [by apply elem_of_map_to_list|].
    by apply bool_decide_eq_true.
Qed.

Lemma mergeContacts_inv now s primaryId duplicateIds s' c' :
  mergeContacts mergeContactData now s primaryId duplicateIds
  = Returned (s', c') →
  ∃ keys,
    (∀ k, k ∈ keys ↔ k ∈ duplicateIds ∧ is_Some (contacts s !! k))
    ∧ is_Some (contacts s !! primaryId)
    ∧ (primaryId ∉ duplicateIds)
    ∧ deals s' = (rewired now keys primaryId <$> deals s)
    ∧ contacts s'
      = <[primaryId := c']>
          (filter (λ row, row.1 ∉ duplicateIds) (contacts s)).
Proof.
  unfold mergeContacts.
  destruct (contacts s !! primaryId) as [primary|] eqn:Hp; [|discriminate].
  set (duplicates := List.filter _ (map_to_list (contacts s))).
  destruct (fold_reassign now primaryId duplicates s) as [Hdeals Hcontacts].
  rewrite Hcontacts.
  destruct (filter _ (contacts s) !! primaryId) as [current|] eqn:Hcur;
    [|discriminate].
  intros [= <- <-]. exists duplicates.*1. cbn [deals contacts].
  split; [intros k; apply elem_of_duplicate_keys|]. split; [eauto|].
  split; [|by rewrite Hdeals].
  apply map_lookup_filter_Some in Hcur as [_ Hnot]. done.
Qed.


(** X28. A merge keeps the deals referring to stored contacts. Every deal stays;
    a deal that referred to a removed duplicate refers to the primary
    contact afterwards and every other deal refers to whom it referred
    before; so no deal refers to a removed contact, and if every deal
    referred to a stored contact before the merge, every deal does so after
    it. *)
Theorem mergeContacts_keeps_references (now : Timestamp) (s s' : Store)
    (primaryId : string) (duplicateIds : list string) (c' : Contact.t) :
  mergeContacts mergeContactData now s primaryId duplicateIds
  = Returned (s', c') →
  (∀ k d, deals s !! k = Some d →
     ∃ d', deals s' !! k = Some d'
           ∧ Deal.value d' = Deal.value d
           ∧ Deal.stageId d' = Deal.stageId d
           ∧ (Deal.contactId d ∈ duplicateIds →
              is_Some (contacts s !! Deal.contactId d) →
              Deal.contactId d' = primaryId)
           ∧ (Deal.contactId d ∉ duplicateIds →
              d' = d))
  ∧ (∀ k d', deals s' !! k = Some d' → is_Some (deals s !! k))
  ∧ (dealsReferToContacts s → dealsReferToContacts s').
Proof.
  intros Hm.
  destruct (mergeContacts_inv _ _ _ _ _ _ Hm)
    as (keys & Hkeys & Hprimary & Hnot & Hdeals & Hcontacts).
  assert (∀ k d, deals s !! k = Some d →
            deals s' !! k = Some (rewired now keys primaryId d)) as Hlookup.
  { intros k d Hd. by rewrite Hdeals, lookup_fmap, Hd. }
  split; [|split].
  - intros k d Hd. eexists. split; [by apply Hlookup|]. unfold rewired.
    case_bool_decide as Hin; simpl.
    + apply Hkeys in Hin as [Hin _].
      split; [done|]. split; [done|]. split; [done|]. by intros Hout.
    + split; [done|]. split; [done|]. split; [|done].
      intros Hin' Hsome. exfalso. apply Hin. by apply Hkeys.
  - intros k d'. rewrite Hdeals, lookup_fmap.
    destruct (deals s !! k); [eauto | discriminate].
  - intros Hrefer k d'. rewrite Hdeals, lookup_fmap.
    destruct (deals s !! k) as [d|] eqn:Hd; [|discriminate].
    intros [= <-]. rewrite Hcontacts. unfold rewired.
    case_bool_decide as Hin; simpl.
    + rewrite lookup_insert_eq. eauto.
    + destruct (decide (Deal.contactId d = primaryId)) as [->|Hne].
      * rewrite lookup_insert_eq. eauto.
      * rewrite lookup_insert_ne by done.
        destruct (Hrefer k d Hd) as [c Hc]. exists c.
        apply map_lookup_filter_Some. split; [done|]. simpl.
        intros Hdup. apply Hin, Hkeys. eauto.
Qed.

End MergeProperties.

Section MergeScenario.
Import ContactMerge.


Lemma mergeContacts_keeps_references_witness :
  mergeContacts Examples.keepPrimary 50 Examples.withDuplicate "c1" ["c2"]
  = Returned (Examples.afterMerge.1, Examples.afterMerge.2)
  ∧ deals Examples.withDuplicate !! "d3" = Some Examples.duplicateDeal
  ∧ ∃ d', deals Examples.afterMerge.1 !! "d3" = Some d'
          ∧ Deal.contactId d' = "c1".
Proof.
  assert (mergeContacts Examples.keepPrimary 50 Examples.withDuplicate "c1"
            ["c2"] = Returned (Examples.afterMerge.1, Examples.afterMerge.2))
    as Hm by (vm_compute; reflexivity).
  split; [exact Hm|]. split; [reflexivity|].
  destruct (mergeContacts_keeps_references Examples.keepPrimary 50
              Examples.withDuplicate Examples.afterMerge.1 "c1" ["c2"]
              Examples.afterMerge.2 Hm) as (Hdeals & _ & _).
  destruct (Hdeals "d3" Examples.duplicateDeal eq_refl)
    as (d' & Hd' & _ & _ & Hmoved & _).
  exists d'. split; [exact Hd'|]. apply Hmoved; [left|].
  eexists. reflexivity.
Defined.

End MergeScenario.

(** ** Importing contacts *)

Section ImportProperties.
Import ContactImportService.
Context {Row Partial Data Id DB : Type}.
Variable mapFields : Row → string + Partial.
Variable parse : Partial → string + Data.
Variable findDuplicates : DB → Data → string + list Id.
Variable update : DB → Id → Data → DB * option string.
Variable create : DB → Data → DB * option string.
Variable options : ImportOptions.

(** What one round of the loop does to the counters. *)
Lemma importRecord_cases (db : DB) (results : ImportResult (Row := Row))
    (index : nat) (record : Row) :
  (∃ message,
     (importRecord mapFields parse findDuplicates update create options
      (db, results) (index, record)).2
     = recordFailure results index message record)
  ∨ (importRecord mapFields parse findDuplicates update create options
      (db, results) (index, record)).2 = recordSuccess results
  ∨ ((importRecord mapFields parse findDuplicates update create options
      (db, results) (index, record)).2 = recordDuplicate results
     ∧ checkDuplicates options = true ∧ skipDuplicates options = true).
Proof.
  unfold importRecord, createContact.
  destruct (mapFields record) as [message|contactData]; [left; eauto|].
  destruct (parse contactData) as [message|validated]; [left; eauto|].
  destruct (create db validated) as [db1 [message1|]] eqn:Hcreate.
  - destruct (checkDuplicates options) eqn:Hcheck; [|left; eauto].
    destruct (findDuplicates db validated) as [message|[|first found]];
      [left; eauto | left; eauto |].
    destruct (skipDuplicates options) eqn:Hskip; [right; right; done|].
    destruct (updateDuplicates options); [|left; eauto].
    destruct (update db first validated) as [db2 [message2|]];
      [left; eauto | right; left; done].
  - destruct (checkDuplicates options) eqn:Hcheck; [|right; left; done].
    destruct (findDuplicates db validated) as [message|[|first found]];
      [left; eauto | right; left; done |].
    destruct (skipDuplicates options) eqn:Hskip; [right; right; done|].
    destruct (updateDuplicates options); [|right; left; done].
    destruct (update db first validated) as [db2 [message2|]];
      [left; eauto | right; left; done].
Qed.

Lemma importRecord_accounted (processed : list Row) (count : nat) (db : DB)
    (results : ImportResult (Row := Row)) (record : Row) :
  accounted options processed count results →
  accounted options (processed ++ [record]) count
            (importRecord mapFields parse findDuplicates update create options
       (db, results) (length processed, record)).2.
Proof.
  intros (Htotal & Hsum & Hlen & Hrows & Hsorted & Hdup).
  assert (∀ e, e ∈ errors results →
            (1 ≤ row e ≤ length (processed ++ [record]))%nat
            ∧ (processed ++ [record]) !! (row e - 1)%nat = Some (data e))
    as Hrows'.
  { intros e He. destruct (Hrows e He) as [Hb Hl]. rewrite length_app. simpl.
    split; [lia|]. by apply lookup_app_l_Some. }
  destruct (importRecord_cases db results (length processed) record)
    as [[message ->] | [-> | (-> & Hcheck & Hskip)]];
    unfold accounted; rewrite length_app; simpl.
  - split; [done|]. split; [lia|]. split; [rewrite length_app; simpl; lia|].
    split; [|split; [|done]].
    + intros e [He | ->%list_elem_of_singleton]%elem_of_app.
      * destruct (Hrows' e He) as [Hb Hl]. rewrite length_app in Hb.
        simpl in Hb. done.
      * simpl. split; [lia|].
        replace (length processed + 1 - 1)%nat with (length processed) by lia.
        by rewrite lookup_app_r, Nat.sub_diag.
    + intros i j e1 e2 Hi Hj Hlt.
      apply lookup_app_Some in Hj as [Hj | [Hge Hj]].
      * apply lookup_app_Some in Hi as [Hi | [Hge' _]].
        -- by apply (Hsorted i j).
        -- apply lookup_lt_Some in Hj. lia.
      * apply list_lookup_singleton_Some in Hj as [Hlast <-]. simpl.
        apply lookup_app_Some in Hi as [Hi | [Hge' Hi]].
        -- apply list_elem_of_lookup_2 in Hi. apply Hrows in Hi. lia.
        -- apply list_lookup_singleton_Some in Hi as [? _]. lia.
  - split; [done|]. split; [lia|]. split; [done|].
    split; [|split; [done|done]].
    intros e He. destruct (Hrows' e He) as [Hb Hl]. rewrite length_app in Hb.
    simpl in Hb. done.
  - split; [done|]. split; [lia|]. split; [done|].
    split; [|split; [done|]].
    + intros e He. destruct (Hrows' e He) as [Hb Hl]. rewrite length_app in Hb.
      simpl in Hb. done.
    + rewrite Hcheck, Hskip. discriminate.
Qed.

Lemma import_loop_accounted (count : nat) (db : DB) (records : list Row) :
  accounted options records count
    (fold_left (importRecord mapFields parse findDuplicates update create
                  options) (imap pair records)
               (db, mkImportResult count 0 0 0 [])).2.
Proof.
  induction records as [|record records IH] using rev_ind.
  - simpl. unfold accounted. simpl.
    split; [done|]. split; [done|]. split; [done|].
    split; [intros e He; by apply elem_of_nil in He|]. split; [|done].
    intros i j e1 e2 Hi. by rewrite lookup_nil in Hi.
  - rewrite imap_app, fold_left_app. simpl. rewrite Nat.add_0_r.
    destruct (fold_left (importRecord mapFields parse findDuplicates update create
                  options) (imap pair records) _) as [db' results].
    by apply importRecord_accounted.
Qed.

(** X29. The report of an import accounts for every record, whatever the mapping,
    the validation and the contact service do: [total] is the number of
    records and every record is counted once, as a success, a failure or a
    duplicate; there is one error entry per failure; the entries carry the
    1-based positions of their records, in increasing order, together with
    the records themselves; and nothing is counted as a duplicate unless
    both the duplicate check and the skipping of duplicates are switched
    on. *)
Theorem importFromCSV_accounts (db : DB) (records : list Row) :
  let results :=
    (importFromCSV mapFields parse findDuplicates update create db records
                   options).2 in
  total results = length records
  ∧ (success results + failed results + duplicates results)%nat
    = length records
  ∧ length (errors results) = failed results
  ∧ (∀ e, e ∈ errors results →
       (1 ≤ row e ≤ length records)%nat
       ∧ records !! (row e - 1)%nat = Some (data e))
  ∧ (∀ i j e1 e2, errors results !! i = Some e1 →
       errors results !! j = Some e2 → (i < j)%nat → (row e1 < row e2)%nat)
  ∧ (checkDuplicates options && skipDuplicates options = false →
     duplicates results = 0%nat).
Proof.
  apply (import_loop_accounted (length records) db records).
Qed.

End ImportProperties.

Section ImportScenario.
Import ContactImportService.

Lemma importFromCSV_accounts_witness :
  let results :=
    (importFromCSV Examples.mapRow Examples.parseRow Examples.findRow
                   Examples.updateRow Examples.createRow [] Examples.rows
                   (mkImportOptions true false true)).2 in
  (success results + failed results + duplicates results)%nat = 3%nat
  ∧ length (errors results) = failed results
  ∧ duplicates results = 0%nat.
Proof.
  destruct (importFromCSV_accounts Examples.mapRow Examples.parseRow
              Examples.findRow Examples.updateRow Examples.createRow
              (mkImportOptions true false true) [] Examples.rows)
    as (_ & Hsum & Hlen & _ & _ & Hdup).
  split; [exact Hsum|]. split; [exact Hlen|]. exact (Hdup eq_refl).
Defined.

End ImportScenario.
